(** * deep-knn: leave-one-out ranking (l1o.py) and the build phase of
      train_text_classifier.py, embedded in Rocq.

    Python floats are modelled as exact rationals [Q]; lists are Rocq lists
    read and updated by index with stdpp's [!!] and [<[i:=v]>]; a raised
    exception is a value of [exception]; calls to the objects the scripts
    import (the DkNN scorer, the classifier) and the output of the main
    loop are recorded in a log of [event]s. *)

From stdpp Require Import base list strings gmap.
From Stdlib Require Import QArith Qabs Lqa Sorted Permutation.

(** ** Exceptions and the two monads of the embedding *)

(** The Python exceptions the modelled code can raise. *)
Inductive exception :=
| AssertionError | IndexError | KeyError | NameError
| ValueError | ZeroDivisionError | SystemExit.

(** The class name Python reports for an exception. *)
Definition exception_name (e : exception) : string :=
  match e with
  | AssertionError => "AssertionError"
  | IndexError => "IndexError"
  | KeyError => "KeyError"
  | NameError => "NameError"
  | ValueError => "ValueError"
  | ZeroDivisionError => "ZeroDivisionError"
  | SystemExit => "SystemExit"
  end.

(** Result of a computation that has no effect but may raise. *)
Inductive outcome (A : Type) :=
| Raised (e : exception)
| Returned (a : A).
Arguments Raised {A} e.
Arguments Returned {A} a.

Definition obind {A B} (m : outcome A) (f : A -> outcome B) : outcome B :=
  match m with
  | Raised e => Raised e
  | Returned a => f a
  end.

(** [l[i]] on a Python list or array, for an index that is not negative. *)
Definition index {A} (l : list A) (i : nat) : outcome A :=
  match l !! i with
  | Some a => Returned a
  | None => Raised IndexError
  end.

(** [ary[st:en]] along the first axis. *)
Definition slice {A} (st en : nat) (ary : list A) : list A :=
  take (en - st) (drop st ary).

(** A one- or more-dimensional integer array: its shape and its items in
    row-major order. *)
Record ndarray := { shape : list nat; data : list Z }.

Definition ndim (x : ndarray) : nat := length (shape x).

(** [x.shape[0]]; the code reads it only after [ndim] was checked. *)
Definition shape0 (x : ndarray) : nat := hd 0%nat (shape x).

(** The one-dimensional array holding the tokens [l]. *)
Definition array1 (l : list Z) : ndarray :=
  {| shape := [length l]; data := l |}.

(** What the scripts do that is visible from outside: the calls to the
    scorer and to the classifier, with their arguments, and the output of the
    main loop. *)
Inductive event :=
| Call_predict (xs : list ndarray)
| Call_get_neighbor_change (xs refs : list ndarray)
| Call_get_regular_confidence (xs : list ndarray) (ys : list Z)
| Call_model_predict (xs : list ndarray)
| Call_get_onehot_grad (xs : list ndarray)
| Print_text (words : list string)
| Print_label (label : Z)
| Print_prediction (prediction : Z) (original_score : Q)
| Print_score (score : Q) (word : string)
| Write_visual (visual : list (string * Q))
| Print_empty_line.

(** A computation that logs events and may raise: its outcome and the events
    logged until it returned or raised. *)
Definition M (A : Type) : Type := outcome A * list event.

Definition ret {A} (a : A) : M A := (Returned a, []).
Definition raise {A} (e : exception) : M A := (Raised e, []).
Definition lift {A} (o : outcome A) : M A := (o, []).
Definition emit (ev : event) : M unit := (Returned tt, [ev]).

Definition bind {A B} (m : M A) (f : A -> M B) : M B :=
  match m with
  | (Raised e, log) => (Raised e, log)
  | (Returned a, log) => let '(r, log') := f a in (r, log ++ log')
  end.

Notation "'let*' x := m 'in' k" := (bind m (fun x => k))
  (at level 10, x pattern, m at level 200, k at level 200).
Notation "m ;; k" := (bind m (fun _ => k))
  (at level 100, k at level 200, right associativity).

(** A [for] loop whose body may raise: the first exception ends the loop. *)
Fixpoint for_each {A} (l : list A) (body : A -> M unit) : M unit :=
  match l with
  | [] => ret tt
  | a :: l' => body a ;; for_each l' body
  end.

(** A [for] loop that appends one result per item. *)
Fixpoint for_collect {A B} (l : list A) (body : A -> M B) : M (list B) :=
  match l with
  | [] => ret []
  | a :: l' =>
      let* b := body a in
      let* bs := for_collect l' body in
      ret (b :: bs)
  end.

(** ** l1o.py: flatten *)

(** [x[:i]] and [x[i+1:]] joined, for a one-dimensional array. *)
Definition remove_at (i : nat) (l : list Z) : list Z :=
  take i l ++ drop (S i) l.

(** [flatten(x)]: the two assertions, then one variant per position. *)
Definition flatten (x : ndarray) : outcome (list ndarray) :=
  if negb (ndim x =? 1)%nat then Raised AssertionError
  else if negb (1 <? shape0 x)%nat then Raised AssertionError
  else Returned (map (fun i => array1 (remove_at i (data x)))
                     (seq 0 (shape0 x))).

(** ** l1o.py: the scorer and the classifier, as the script uses them *)

(** The DkNN object of run_dknn.py, by the three methods l1o.py calls.
    [predict] returns five values; the script keeps the first two, the
    predicted labels and their scores. *)
Record DkNN := {
  predict : list ndarray -> list Z * list Q;
  get_neighbor_change : list ndarray -> list ndarray -> Q;
  get_regular_confidence : list ndarray -> list Z -> list Q
}.

(** The classifier, by the two methods [vanilla_grad] calls:
    [model.predict(xs, softmax=True)], one row of class probabilities per
    input, and [model.get_onehot_grad(xs)], one list of per-token gradients
    per input. *)
Record Classifier := {
  predict_softmax : list ndarray -> list (list Q);
  get_onehot_grad : list ndarray -> list (list Q)
}.

Definition call_predict (dknn : DkNN) (xs : list ndarray)
  : M (list Z * list Q) :=
  emit (Call_predict xs) ;; ret (predict dknn xs).

Definition call_get_neighbor_change (dknn : DkNN) (xs refs : list ndarray)
  : M Q :=
  emit (Call_get_neighbor_change xs refs) ;;
  ret (get_neighbor_change dknn xs refs).

Definition call_get_regular_confidence (dknn : DkNN) (xs : list ndarray)
  (ys : list Z) : M (list Q) :=
  emit (Call_get_regular_confidence xs ys) ;;
  ret (get_regular_confidence dknn xs ys).

Definition call_model_predict (model : Classifier) (xs : list ndarray)
  : M (list (list Q)) :=
  emit (Call_model_predict xs) ;; ret (predict_softmax model xs).

Definition call_get_onehot_grad (model : Classifier) (xs : list ndarray)
  : M (list (list Q)) :=
  emit (Call_get_onehot_grad xs) ;; ret (get_onehot_grad model xs).

(** ** l1o.py: leave_one_out and vanilla_grad *)

(** [leave_one_out(dknn, x, bigrams, snli, use_credibility)]. The functions
    [snli_flatten] and [bigram_flatten] are commented out in the module, so
    calling them raises NameError. *)
Definition leave_one_out (dknn : DkNN) (x : ndarray)
  (bigrams snli use_credibility : bool) : M (Z * Q * list Q) :=
  let* (ys, original_score) := call_predict dknn [x] in
  let* y := lift (index ys 0) in
  let* original_score := lift (index original_score 0) in
  let* xs := (if snli then raise NameError
              else if bigrams then raise NameError
              else lift (flatten x)) in
  let ys := map (fun _ => y) xs in
  if use_credibility then
    let* scores := for_collect xs (fun input_x =>
                     call_get_neighbor_change dknn [input_x] [x]) in
    ret (y, original_score, scores)
  else
    let* scores := call_get_regular_confidence dknn xs ys in
    ret (y, original_score, scores).

Definition Qltb (a b : Q) : bool := negb (Qle_bool b a).

(** Index of the first greatest item, scanning from position [i]. *)
Fixpoint argmax_from (best : Q) (best_i i : nat) (l : list Q) : nat :=
  match l with
  | [] => best_i
  | a :: l' =>
      if Qltb best a then argmax_from a i (S i) l'
      else argmax_from best best_i (S i) l'
  end.

(** [F.argmax(output)] over all the items of [output]. *)
Definition argmax (l : list Q) : outcome Z :=
  match l with
  | [] => Raised ValueError
  | a :: l' => Returned (Z.of_nat (argmax_from a 0 1 l'))
  end.

(** [F.max(output)] over all the items of [output]. *)
Definition maximum (l : list Q) : outcome Q :=
  match l with
  | [] => Raised ValueError
  | a :: l' => Returned (fold_left (fun m b => if Qltb m b then b else m) l' a)
  end.

(** [vanilla_grad(model, x, ...)]: no variant of [x] is built; the scores
    are the gradients at the tokens of [x] itself. The two warnings are not
    modelled. *)
Definition vanilla_grad (model : Classifier) (x : ndarray)
  (bigrams snli use_credibility : bool) : M (Z * Q * list Q) :=
  let* output := call_model_predict model [x] in
  let* y := lift (argmax (concat output)) in
  let* original_score := lift (maximum (concat output)) in
  let* grads := call_get_onehot_grad model [x] in
  let* onehot_grad := lift (index grads 0) in
  ret (y, original_score, onehot_grad).

(** ** l1o.py: the body of the loop of main *)

(** [list(enumerate(l))]. *)
Definition enumerate {A} (l : list A) : list (nat * A) :=
  zip (seq 0 (length l)) l.

(** [sorted(pairs, key=lambda x: x[1])]: ascending and stable, an item goes
    before the first item of the sorted rest whose score is not smaller. *)
Fixpoint insert_by_score (p : nat * Q) (l : list (nat * Q))
  : list (nat * Q) :=
  match l with
  | [] => [p]
  | q :: l' =>
      if Qle_bool (snd p) (snd q) then p :: q :: l'
      else q :: insert_by_score p l'
  end.

Definition sorted_by_score (l : list (nat * Q)) : list (nat * Q) :=
  foldr insert_by_score [] l.

(** [d[k]] on a dict. *)
Definition getitem (d : gmap Z string) (k : Z) : outcome string :=
  match d !! k with
  | Some v => Returned v
  | None => Raised KeyError
  end.

(** [[reverse_vocab[w] for w in text]]. *)
Fixpoint lookup_words (reverse_vocab : gmap Z string) (text : list Z)
  : outcome (list string) :=
  match text with
  | [] => Returned []
  | w :: text' =>
      obind (getitem reverse_vocab w) (fun s =>
      obind (lookup_words reverse_vocab text') (fun ss =>
      Returned (s :: ss)))
  end.

Definition is_leave_one_out (interp_method : string) : bool :=
  (interp_method =? "dknn")%string || (interp_method =? "softmax")%string.

(** Lines 199-202: what the loop appends to [normalized_scores] for one
    score. *)
Definition raw_importance (interp_method : string) (original_score score : Q)
  : Q :=
  if is_leave_one_out interp_method then (score - original_score)%Q
  else score.

(** Lines 196-203: the loop that fills [normalized_scores] and [words]. *)
Fixpoint raw_loop (interp_method : string) (original_score : Q)
  (reverse_vocab : gmap Z string) (text : list Z) (items : list (nat * Q))
  (normalized_scores : list Q) (words : list string)
  : outcome (list Q * list string) :=
  match items with
  | [] => Returned (normalized_scores, words)
  | (idx, score) :: items' =>
      let normalized_scores :=
        normalized_scores
          ++ [raw_importance interp_method original_score score] in
      obind (index text idx) (fun w =>
      obind (getitem reverse_vocab w) (fun word =>
      raw_loop interp_method original_score reverse_vocab text items'
               normalized_scores (words ++ [word])))
  end.

(** Lines 204-205: the sign flip for the positive prediction. *)
Definition flip_sign (prediction : Z) (normalized_scores : list Q) : list Q :=
  if (prediction =? 1)%Z
  then map (fun n => (-1 * n)%Q) normalized_scores
  else normalized_scores.

(** The constant 1e-6 of lines 210-211. *)
Definition floor_1e_6 : Q := 1 # 1000000.

(** Lines 212-216: the two totals, as the pair (positive, negative). *)
Definition totals_step (acc : Q * Q) (s : Q) : Q * Q :=
  let '(total_score_pos, total_score_neg) := acc in
  if Qltb s 0
  then (total_score_pos, (total_score_neg + Qabs s)%Q)
  else ((total_score_pos + s)%Q, total_score_neg).

Definition totals (normalized_scores : list Q) : Q * Q :=
  fold_left totals_step normalized_scores (floor_1e_6, floor_1e_6).

(** [a / b] on floats. *)
Definition py_div (a b : Q) : outcome Q :=
  if Qeq_bool b 0 then Raised ZeroDivisionError else Returned (a / b)%Q.

(** Lines 218-221: the value written back for the score [s]. *)
Definition scaled (total_score_pos total_score_neg s : Q) : outcome Q :=
  if Qltb s 0
  then obind (py_div s total_score_neg) (fun q => Returned (q / 2)%Q)
  else obind (py_div s total_score_pos) (fun q => Returned (q / 2)%Q).

(** Lines 217-221: the list is overwritten in place while [enumerate] walks
    it; position [idx] is read when the walk reaches it. *)
Fixpoint scale_loop (total_score_pos total_score_neg : Q) (idxs : list nat)
  (normalized_scores : list Q) : outcome (list Q) :=
  match idxs with
  | [] => Returned normalized_scores
  | idx :: idxs' =>
      match normalized_scores !! idx with
      | None => Returned normalized_scores
      | Some s =>
          obind (scaled total_score_pos total_score_neg s) (fun v =>
          scale_loop total_score_pos total_score_neg idxs'
                     (<[idx := v]> normalized_scores))
      end
  end.

(** Line 231: centre the scores. *)
Definition center (normalized_scores : list Q) : list Q :=
  map (fun n => ((1 # 2) + n)%Q) normalized_scores.

(** Lines 210-231 together. *)
Definition normalize (normalized_scores : list Q) : outcome (list Q) :=
  let '(total_score_pos, total_score_neg) := totals normalized_scores in
  obind (scale_loop total_score_pos total_score_neg
                    (seq 0 (length normalized_scores)) normalized_scores)
        (fun scaled => Returned (center scaled)).

(** [colorize(words, color_array)] up to the rendering: each word with the
    colour-map coordinate it is drawn with. *)
Definition colorize (words : list string) (color_array : list Q)
  : list (string * Q) :=
  map (fun '(word, color) =>
         (if (word =? "<unk>")%string then "&ltunk&gt" else word, color))
      (zip words color_array).

(** Line 125, [{v: k for k, v in vocab.items()}]: the items of [vocab] in
    their order, a later item replacing an earlier one with the same token. *)
Definition make_reverse_vocab (vocab_items : list (string * Z))
  : gmap Z string :=
  fold_left (fun reverse_vocab '(k, v) => <[v := k]> reverse_vocab)
            vocab_items ∅.

(** Lines 146-151: the method moves on at every pass of the loop. *)
Definition next_method (interp_method : string) : string :=
  if (interp_method =? "dknn")%string then "softmax"
  else if (interp_method =? "softmax")%string then "grad"
  else if (interp_method =? "grad")%string then "dknn"
  else interp_method.

Section Main.

Variable dknn : DkNN.
Variable model : Classifier.
(** The test set: a token array and a one-item label array per example
    (datasets other than SNLI, so [use_snli] is false). The scorer is taken
    as it is after [dknn.build] and [dknn.calibrate], lines 136-142. *)
Variable test : list (ndarray * list Z).
Variable reverse_vocab : gmap Z string.

(** Lines 153-158: the ranker of a method, or [exit("Method")]. *)
Definition ranker (interp_method : string)
  : outcome (ndarray -> bool -> bool -> bool -> M (Z * Q * list Q)) :=
  if is_leave_one_out interp_method then Returned (leave_one_out dknn)
  else if (interp_method =? "grad")%string
       then Returned (vanilla_grad model)
       else Raised SystemExit.

(** Lines 170-175: the call of the ranker on one probe. *)
Definition rank (interp_method : string) (x : ndarray)
  : M (Z * Q * list Q) :=
  let* ranker := lift (ranker interp_method) in
  ranker x false false (interp_method =? "dknn")%string.

(** Line 183: one line of the printed ranking. *)
Definition print_score (text : list Z) (item : nat * Q) : M unit :=
  let '(idx, score) := item in
  let* w := lift (index text idx) in
  let* word := lift (getitem reverse_vocab w) in
  emit (Print_score score word).

(** Line 176: the ranking printed for one probe. *)
Definition ranking (scores : list Q) : list (nat * Q) :=
  sorted_by_score (enumerate scores).

(** Lines 196-232: the coloured words written for one probe. *)
Definition heatmap (interp_method : string) (prediction : Z)
  (original_score : Q) (scores : list Q) (text : list Z)
  : outcome (list (string * Q)) :=
  obind (raw_loop interp_method original_score reverse_vocab text
                  (enumerate scores) [] [])
        (fun '(normalized_scores, words) =>
  let normalized_scores := flip_sign prediction normalized_scores in
  obind (normalize normalized_scores) (fun normalized_scores =>
  Returned (colorize words normalized_scores))).

(** One pass of the loop of main, lines 145-314; the state carried from
    one pass to the next is [args.interp_method]. The two calls [print()] of
    lines 313-314 stand in the body of the [with] block, after the write. *)
Definition iteration (interp_method : string) (j : nat) : M string :=
  let i := (j / 3)%nat in
  let interp_method := next_method interp_method in
  let* ranker := lift (ranker interp_method) in
  let* (text, label) := lift (index test i) in
  let x := text in
  let use_cred := (interp_method =? "dknn")%string in
  let* (prediction, original_score, scores) :=
    ranker x false false use_cred in
  let sorted_scores := ranking scores in
  let* ws := lift (lookup_words reverse_vocab (data text)) in
  emit (Print_text ws) ;;
  let* label0 := lift (index label 0) in
  emit (Print_label label0) ;;
  emit (Print_prediction prediction original_score) ;;
  for_each sorted_scores (print_score (data text)) ;;
  let* visual :=
    lift (heatmap interp_method prediction original_score scores
                  (data text)) in
  emit (Write_visual visual) ;;
  emit Print_empty_line ;;
  emit Print_empty_line ;;
  ret interp_method.

(** The loop of main over the passes [js]. *)
Fixpoint iterations (js : list nat) (interp_method : string) : M string :=
  match js with
  | [] => ret interp_method
  | j :: js' =>
      let* interp_method := iteration interp_method j in
      iterations js' interp_method
  end.

(** [for j in range(len(test) * 3)]. *)
Definition main_loop (interp_method : string) : M string :=
  iterations (seq 0 (length test * 3)) interp_method.

End Main.

(** ** train_text_classifier.py: the build and query phases of main *)

(** An activation or a row of class scores. *)
Abbreviation vector := (list Q).

(** nearpy's [Engine] with one hash, as the script uses it: the stored
    (vector, data) pairs, each under the bucket key of its vector. *)
Record Engine := {
  dim : nat;
  storage : list (string * (vector * nat))
}.

(** chainer's [SerialIterator(dataset, batch_size, repeat=False)]: the
    examples are visited in the order [order], the permutation drawn when
    the iterator is reset. *)
Record SerialIterator := {
  dataset : list (ndarray * list Z);
  batch_size : nat;
  order : list nat;
  current_position : nat;
  epoch : nat
}.

(** Lines 142-143: the iterator as it is after [reset()]. *)
Definition SerialIterator_reset (dataset : list (ndarray * list Z))
  (batch_size : nat) (order : list nat) : SerialIterator :=
  {| dataset := dataset; batch_size := batch_size; order := order;
     current_position := 0; epoch := 0 |}.

(** [epoch_detail]: [epoch + current_position / len(dataset)]. *)
Definition epoch_detail (it : SerialIterator) : outcome Q :=
  obind (py_div (inject_Z (Z.of_nat (current_position it)))
                (inject_Z (Z.of_nat (length (dataset it)))))
        (fun q => Returned (inject_Z (Z.of_nat (epoch it)) + q)%Q).

(** [[dataset[index] for index in indices]]. *)
Fixpoint examples_at (dataset : list (ndarray * list Z)) (indices : list nat)
  : outcome (list (ndarray * list Z)) :=
  match indices with
  | [] => Returned []
  | ix :: indices' =>
      obind (index dataset ix) (fun example =>
      obind (examples_at dataset indices') (fun batch =>
      Returned (example :: batch)))
  end.

(** [next(it)]: the next batch and the iterator after it; [None] stands for
    StopIteration. The iterator records [epoch_detail] before it builds the
    batch. *)
Definition SerialIterator_next (it : SerialIterator)
  : outcome (option (list (ndarray * list Z) * SerialIterator)) :=
  if (0 <? epoch it)%nat then Returned None
  else
    obind (epoch_detail it) (fun previous_epoch_detail =>
    let i := current_position it in
    let i_end := (i + batch_size it)%nat in
    let N := length (dataset it) in
    obind (examples_at (dataset it) (slice i i_end (order it))) (fun batch =>
    if (N <=? i_end)%nat
    then Returned (Some (batch,
                         {| dataset := dataset it;
                            batch_size := batch_size it; order := order it;
                            current_position := 0;
                            epoch := S (epoch it) |}))
    else Returned (Some (batch,
                         {| dataset := dataset it;
                            batch_size := batch_size it; order := order it;
                            current_position := i_end;
                            epoch := epoch it |})))).

Section Build.

(** [model.deep_knn_predict(text)]: the rows of [output] and the rows of
    [activations], in the order the two [for] loops visit them. The class
    TextClassifier of nets.py defines no method of this name; the build and
    the evaluation are modelled for a model object that has it. *)
Variable deep_knn_predict : list ndarray -> list vector * list vector.

(** The hash [rbpt] of the engine: the bucket a vector is stored in and
    the buckets searched for a query; nearpy's [unitvec], the vector scaled
    to Euclidean length 1; and the distance the engine computes between a
    stored vector and a query. *)
Variable hash_vector : vector -> string.
Variable unitvec : vector -> vector.
Variable query_keys : vector -> list string.
Variable distance : vector -> vector -> Q.

(** [Engine.store_vector(v, data)]: the bucket is that of [v], what is
    stored is the normalized vector. *)
Definition store_vector (e : Engine) (v : vector) (data : nat) : Engine :=
  let nv := unitvec v in
  {| dim := dim e; storage := storage e ++ [(hash_vector v, (nv, data))] |}.

(** The content of one bucket, in the order it was stored. *)
Definition bucket (e : Engine) (k : string) : list (vector * nat) :=
  map snd (filter (fun entry => bool_decide (fst entry = k)) (storage e)).

(** [unique_dict[k] = v] on a dict that keeps its keys in the order they
    were first set. *)
Fixpoint dict_set (unique_dict : list (nat * (vector * nat))) (k : nat)
  (v : vector * nat) : list (nat * (vector * nat)) :=
  match unique_dict with
  | [] => [(k, v)]
  | (k', v') :: unique_dict' =>
      if (k =? k')%nat then (k, v) :: unique_dict'
      else (k', v') :: dict_set unique_dict' k v
  end.

(** nearpy's UniqueFilter: [unique_dict[v[1]] = v] for every candidate, then
    the values of the dict. *)
Definition unique_filter (l : list (vector * nat)) : list (vector * nat) :=
  map snd (fold_left (fun unique_dict v => dict_set unique_dict (snd v) v)
                     l []).

Fixpoint insert_by_distance (c : vector * nat * Q)
  (l : list (vector * nat * Q)) : list (vector * nat * Q) :=
  match l with
  | [] => [c]
  | c' :: l' =>
      if Qle_bool (snd c) (snd c') then c :: c' :: l'
      else c' :: insert_by_distance c l'
  end.

(** nearpy's NearestFilter(10), the default: the ten nearest. *)
Definition nearest_filter (l : list (vector * nat * Q))
  : list (vector * nat * Q) :=
  take 10 (foldr insert_by_distance [] l).

(** [Engine.neighbours(v)]: (vector, data, distance) triples. *)
Definition neighbours (e : Engine) (v : vector)
  : list (vector * nat * Q) :=
  let candidates := flat_map (bucket e) (query_keys v) in
  let candidates := unique_filter candidates in
  nearest_filter (map (fun '(x, d) => (x, d, distance x v)) candidates).

(** [[model.xp.argmax(prediction.data) for prediction in output]]. *)
Fixpoint predicted_labels (output : list vector) : outcome (list Z) :=
  match output with
  | [] => Returned []
  | prediction :: output' =>
      obind (argmax prediction) (fun y =>
      obind (predicted_labels output') (fun ys => Returned (y :: ys)))
  end.

(** Lines 145-162: the loop over the training batches; it appends to
    [label_list] and to [layers_act_list]. *)
Fixpoint collect (train_iter : list (list (ndarray * list Z)))
  (layers_act_list : list vector) (label_list : list Z)
  : outcome (list vector * list Z) :=
  match train_iter with
  | [] => Returned (layers_act_list, label_list)
  | train_batch :: train_iter' =>
      let text := map fst train_batch in
      let '(output, activations) := deep_knn_predict text in
      obind (predicted_labels output) (fun ys =>
      collect train_iter' (layers_act_list ++ activations)
              (label_list ++ ys))
  end.

(** Lines 173-174: every collected row goes into the one engine, under
    its position in [layers_act_list]. *)
Definition store_all (e : Engine) (items : list (nat * vector)) : Engine :=
  fold_left (fun e '(ind, element) => store_vector e element ind) items e.

(** Lines 139-174: the build phase, given the batches the iterator
    yields. It returns the engine and the label list the query phase
    reads. *)
Definition build (train_iter : list (list (ndarray * list Z)))
  : outcome (Engine * list Z) :=
  obind (collect train_iter [] []) (fun '(layers_act_list, label_list) =>
  obind (index layers_act_list 0) (fun first =>
  let num_dimensions := length first in
  let activation_tree := {| dim := num_dimensions; storage := [] |} in
  Returned (store_all activation_tree (enumerate layers_act_list),
            label_list))).

(** Lines 145-162 with the iterator itself: every pass of the loop asks the
    iterator for the next batch. [fuel] bounds the number of passes; [None]
    means the bound was reached. *)
Fixpoint collect_iter (fuel : nat) (train_iter : SerialIterator)
  (layers_act_list : list vector) (label_list : list Z)
  : option (outcome (list vector * list Z)) :=
  match fuel with
  | O => None
  | S fuel' =>
      match SerialIterator_next train_iter with
      | Raised e => Some (Raised e)
      | Returned None => Some (Returned (layers_act_list, label_list))
      | Returned (Some (train_batch, train_iter')) =>
          let text := map fst train_batch in
          let '(output, activations) := deep_knn_predict text in
          match predicted_labels output with
          | Raised e => Some (Raised e)
          | Returned ys =>
              collect_iter fuel' train_iter'
                           (layers_act_list ++ activations)
                           (label_list ++ ys)
          end
      end
  end.

(** Lines 139-174 from the training set: the iterator is made and reset,
    the loop runs over it, then the engine is filled. *)
Definition build_from (fuel : nat) (train : list (ndarray * list Z))
  (batchsize : nat) (order : list nat)
  : option (outcome (Engine * list Z)) :=
  let train_iter := SerialIterator_reset train batchsize order in
  match collect_iter fuel train_iter [] [] with
  | None => None
  | Some collected =>
      Some (obind collected (fun '(layers_act_list, label_list) =>
            obind (index layers_act_list 0) (fun first =>
            let num_dimensions := length first in
            let activation_tree :=
              {| dim := num_dimensions; storage := [] |} in
            Returned (store_all activation_tree
                                (enumerate layers_act_list),
                      label_list))))
  end.

(** Lines 196-199: the identifiers of the neighbours of one activation. *)
Definition training_indices (activation_tree : Engine) (activation : vector)
  : list nat :=
  map (fun nn => snd (fst nn)) (neighbours activation_tree activation).

(** Lines 212-214: the labels of those neighbours. *)
Fixpoint pred_labels (label_list : list Z) (indices : list nat)
  : outcome (list Z) :=
  match indices with
  | [] => Returned []
  | training_data_index :: indices' =>
      obind (index label_list training_data_index) (fun y =>
      obind (pred_labels label_list indices') (fun ys =>
      Returned (y :: ys)))
  end.

End Build.

(** ** train_text_classifier.py: the evaluation phase of main *)

(** [c[y] += 1] on a Counter: the labels stay in the order they were first
    counted. *)
Fixpoint counter_add (c : list (Z * nat)) (y : Z) : list (Z * nat) :=
  match c with
  | [] => [(y, 1%nat)]
  | (k, n) :: c' =>
      if (k =? y)%Z then (k, S n) :: c' else (k, n) :: counter_add c' y
  end.

(** [Counter(pred_labels)]. *)
Definition Counter (pred_labels : list Z) : list (Z * nat) :=
  fold_left counter_add pred_labels [].

(** [c.most_common(1)]: the first item with the greatest count, in a list of
    at most one item. *)
Definition most_common_1 (c : list (Z * nat)) : list (Z * nat) :=
  match c with
  | [] => []
  | p :: c' =>
      [fold_left (fun best q => if (snd best <? snd q)%nat then q else best)
                 c' p]
  end.

(** Lines 212-217: the labels of the neighbours with the identifiers
    [training_indices], and the most common of them with its count. *)
Definition most_common_label (label_list : list Z)
  (training_indices : list nat) : outcome (Z * nat) :=
  obind (pred_labels label_list training_indices) (fun pred_labels =>
  index (most_common_1 (Counter pred_labels)) 0).

Section Evaluate.

Variable deep_knn_predict : list ndarray -> list vector * list vector.
Variable query_keys : vector -> list string.
Variable distance : vector -> vector -> Q.





End Evaluate.


(** The number of occurrences of the label [y]. *)
Definition votes_for (y : Z) (pred_labels : list Z) : nat :=
  length (filter (fun z => z = y) pred_labels).

(** The count a Counter holds for the label [y]. *)
Definition counted (c : list (Z * nat)) (y : Z) : nat :=
  list_sum (map snd (filter (fun p => fst p = y) c)).

(** ** nets.py: sequence_embed *)

(** [numpy.cumsum(l)], started from [acc]. *)
Fixpoint cumsum_from (acc : nat) (l : list nat) : list nat :=
  match l with
  | [] => []
  | a :: l' => (acc + a)%nat :: cumsum_from (acc + a) l'
  end.

(** [numpy.split(ary, indices)], which [F.split_axis] applies along axis 0:
    the piece before each index and the piece after the last one. *)
Fixpoint split_at {A} (st : nat) (indices : list nat) (ary : list A)
  : list (list A) :=
  match indices with
  | [] => [slice st (length ary) ary]
  | en :: indices' => slice st en ary :: split_at en indices' ary
  end.

Section SequenceEmbed.

(** The state of the random generator, [chainer.config.train], and what
    [F.dropout] does to a two-dimensional array in train mode. *)
Variable rng : Type.
Variable train : bool.
Variable Dropout : Q -> list vector -> rng -> list vector * rng.

(** The exception chainer raises when [F.concat] is given no array. *)
Variable concat_error : exception.

(** [F.concat(xs, axis=0)] on one-dimensional arrays. *)
Definition F_concat0 (xs : list (list Z)) : outcome (list Z) :=
  match xs with
  | [] => Raised concat_error
  | _ => Returned (concat xs)
  end.

(** [F.dropout(x, ratio)]: the identity outside train mode. *)
Definition F_dropout_rows (x : list vector) (ratio : Q) (g : rng)
  : list vector * rng :=
  if train then Dropout ratio x g else (x, g).

(** [sequence_embed(embed, xs, dropout)], lines 11-37. *)
Definition sequence_embed (embed : list Z -> list vector)
  (xs : list (list Z)) (dropout : Q) (g : rng)
  : outcome (list (list vector)) * rng :=
  let x_len := map length xs in
  let x_section := cumsum_from 0 (removelast x_len) in
  match F_concat0 xs with
  | Raised e => (Raised e, g)
  | Returned ids =>
      let ex := embed ids in
      let '(ex, g) := F_dropout_rows ex dropout g in
      let exs := split_at 0 x_section ex in
      (Returned exs, g)
  end.

End SequenceEmbed.

(** ** nets.py: the encoders and the classifiers *)

(** What nets.py takes from chainer and numpy: the arrays, the state of the
    random generator, [chainer.config.train], the functions on arrays, and
    the links, whose creation draws the initial weights. *)
Class Chainer := {
  tensor : Type;
  generator : Type;
  config_train : bool;
  Dropout_apply : Q -> tensor -> generator -> tensor * generator;
  F_relu : tensor -> tensor;
  F_max : tensor -> nat -> tensor;
  F_sum : tensor -> nat -> tensor;
  F_concat : list tensor -> nat -> tensor;
  F_squeeze : tensor -> nat -> tensor;
  F_transpose : tensor -> list nat -> tensor;
  F_softmax : tensor -> tensor;
  xp_argmax : tensor -> nat -> tensor;
  expand_last : tensor -> tensor;
  divide_by_lengths : tensor -> list nat -> tensor;
  concat_examples : list (list Z) -> Z -> tensor;
  L_Linear : option nat -> nat -> generator
             -> (tensor -> tensor) * generator;
  L_EmbedID : nat -> nat -> option Z -> generator
              -> (tensor -> tensor) * generator;
  L_Convolution2D : nat -> nat -> nat * nat -> nat * nat -> generator
                    -> (tensor -> tensor) * generator
}.

Section NetsModel.

Context `{Chainer}.

(** A computation that may draw from the random generator. *)
Definition N (A : Type) : Type := generator -> A * generator.

Definition nret {A} (a : A) : N A := fun g => (a, g).

Definition nbind {A B} (m : N A) (k : A -> N B) : N B :=
  fun g => let r := m g in k (fst r) (snd r).

Notation "'let+' x := m 'in' k" := (nbind m (fun x => k))
  (at level 10, x pattern, m at level 200, k at level 200).

(** What a call with the flag [dknn] returns: the output alone, or the
    output and the list of layers. *)
Definition call_result (dknn : bool) : Type :=
  if dknn then (tensor * list tensor)%type else tensor.

(** [F.dropout(x, ratio)]: the identity outside train mode. *)
Definition F_dropout (x : tensor) (ratio : Q) : N tensor :=
  fun g => if config_train then Dropout_apply ratio x g else (x, g).

(** [block_embed(embed, x, dropout)], lines 40-64. *)
Definition block_embed (embed : tensor -> tensor) (x : tensor)
  (dropout : Q) : N tensor :=
  let e := embed x in
  let+ e := F_dropout e dropout in
  let e := F_transpose e [0; 2; 1]%nat in
  let e := expand_last e in
  nret e.

(** The class MLP, lines 280-307. *)
Record MLP := {
  MLP_children : list (tensor -> tensor);
  MLP_dropout : Q;
  MLP_out_units : nat;
  MLP_n_dknn_layers : nat
}.

(** [for i in range(n_layers): self.add_link(L.Linear(None, n_units))]. *)
Fixpoint add_links (n_layers n_units : nat) : N (list (tensor -> tensor)) :=
  match n_layers with
  | O => nret []
  | S n =>
      let+ link := L_Linear None n_units in
      let+ links := add_links n n_units in
      nret (link :: links)
  end.

Definition MLP_init (n_layers n_units : nat) (dropout : Q) : N MLP :=
  let+ links := add_links n_layers n_units in
  nret {| MLP_children := links; MLP_dropout := dropout;
          MLP_out_units := n_units; MLP_n_dknn_layers := n_layers |}.

(** The loop of [MLP.__call__] over the links still to apply. *)
Fixpoint MLP_loop (children : list (tensor -> tensor)) (dropout : Q)
  (x : tensor) (dknn_layers : list tensor) : N (tensor * list tensor) :=
  match children with
  | [] => nret (x, dknn_layers)
  | link :: children' =>
      let+ x := F_dropout x dropout in
      let x := F_relu (link x) in
      MLP_loop children' dropout x (dknn_layers ++ [x])
  end.

Definition MLP_call (self : MLP) (x : tensor) (dknn : bool)
  : N (call_result dknn) :=
  let+ (x, dknn_layers) :=
    MLP_loop (MLP_children self) (MLP_dropout self) x [] in
  match dknn return N (call_result dknn) with
  | true => nret (x, dknn_layers)
  | false => nret x
  end.

(** What the classifiers use of an encoder. *)
Record Encoder := {
  Encoder_call : list (list Z) -> forall dknn : bool, N (call_result dknn);
  Encoder_out_units : nat;
  Encoder_n_dknn_layers : nat
}.

(** The class CNNEncoder, lines 225-277. The links are total functions on
    arrays: for [n_units < 3] the convolutions have no output channel and
    chainer fails when the encoder is called, which the model leaves out;
    the statements about calls of this encoder take [3 <= n_units]. *)
Record CNNEncoder := {
  CNN_embed : tensor -> tensor;
  CNN_cnn_w3 : tensor -> tensor;
  CNN_cnn_w4 : tensor -> tensor;
  CNN_cnn_w5 : tensor -> tensor;
  CNN_mlp : MLP;
  CNN_out_units : nat;
  CNN_dropout : Q;
  CNN_n_dknn_layers : nat
}.

Definition CNNEncoder_init (n_layers n_vocab n_units : nat) (dropout : Q)
  : N CNNEncoder :=
  let out_units := (n_units / 3)%nat in
  let+ embed := L_EmbedID n_vocab n_units (Some (-1)%Z) in
  let+ cnn_w3 :=
    L_Convolution2D n_units out_units (3, 1)%nat (2, 0)%nat in
  let+ cnn_w4 :=
    L_Convolution2D n_units out_units (4, 1)%nat (3, 0)%nat in
  let+ cnn_w5 :=
    L_Convolution2D n_units out_units (5, 1)%nat (4, 0)%nat in
  let+ mlp := MLP_init n_layers (out_units * 3) dropout in
  nret {| CNN_embed := embed; CNN_cnn_w3 := cnn_w3; CNN_cnn_w4 := cnn_w4;
          CNN_cnn_w5 := cnn_w5; CNN_mlp := mlp;
          CNN_out_units := (out_units * 3)%nat; CNN_dropout := dropout;
          CNN_n_dknn_layers := (MLP_n_dknn_layers mlp + 1)%nat |}.

Definition CNNEncoder_call (self : CNNEncoder) (xs : list (list Z))
  (dknn : bool) : N (call_result dknn) :=
  let x_block := concat_examples xs (-1)%Z in
  let+ ex_block := block_embed (CNN_embed self) x_block (CNN_dropout self) in
  let h_w3 := F_max (CNN_cnn_w3 self ex_block) 2 in
  let h_w4 := F_max (CNN_cnn_w4 self ex_block) 2 in
  let h_w5 := F_max (CNN_cnn_w5 self ex_block) 2 in
  let h := F_concat [h_w3; h_w4; h_w5] 1 in
  let h := F_relu h in
  let+ h := F_dropout h (CNN_dropout self) in
  match dknn return N (call_result dknn) with
  | true =>
      let+ (output, layers) := MLP_call (CNN_mlp self) h true in
      nret (output, [F_squeeze h 2] ++ layers)
  | false => MLP_call (CNN_mlp self) h false
  end.

(** The class BOWEncoder, lines 310-341. *)
Record BOWEncoder := {
  BOW_embed : tensor -> tensor;
  BOW_out_units : nat;
  BOW_dropout : Q;
  BOW_n_dknn_layers : nat
}.

Definition BOWEncoder_init (n_vocab n_units : nat) (dropout : Q)
  : N BOWEncoder :=
  let+ embed := L_EmbedID n_vocab n_units (Some (-1)%Z) in
  nret {| BOW_embed := embed; BOW_out_units := n_units;
          BOW_dropout := dropout; BOW_n_dknn_layers := 1 |}.

Definition BOWEncoder_call (self : BOWEncoder) (xs : list (list Z))
  (dknn : bool) : N (call_result dknn) :=
  let x_block := concat_examples xs (-1)%Z in
  let+ ex_block := block_embed (BOW_embed self) x_block 0 in
  let x_len := map length xs in
  let h := divide_by_lengths (F_sum ex_block 2) x_len in
  match dknn return N (call_result dknn) with
  | true => nret (h, [F_squeeze h 2])
  | false => nret h
  end.

(** The class BOWMLPEncoder, lines 344-375. *)
Record BOWMLPEncoder := {
  BOWMLP_bow_encoder : BOWEncoder;
  BOWMLP_mlp_encoder : MLP;
  BOWMLP_out_units : nat;
  BOWMLP_n_dknn_layers : nat
}.

Definition BOWMLPEncoder_init (n_layers n_vocab n_units : nat) (dropout : Q)
  : N BOWMLPEncoder :=
  let+ bow_encoder := BOWEncoder_init n_vocab n_units dropout in
  let+ mlp_encoder := MLP_init n_layers n_units dropout in
  nret {| BOWMLP_bow_encoder := bow_encoder;
          BOWMLP_mlp_encoder := mlp_encoder;
          BOWMLP_out_units := n_units;
          BOWMLP_n_dknn_layers :=
            (BOW_n_dknn_layers bow_encoder
             + MLP_n_dknn_layers mlp_encoder)%nat |}.

Definition BOWMLPEncoder_call (self : BOWMLPEncoder) (xs : list (list Z))
  (dknn : bool) : N (call_result dknn) :=
  match dknn return N (call_result dknn) with
  | true =>
      let+ (h, hs) := BOWEncoder_call (BOWMLP_bow_encoder self) xs true in
      let+ (output, dknn_layers) :=
        MLP_call (BOWMLP_mlp_encoder self) h true in
      nret (output, hs ++ dknn_layers)
  | false =>
      let+ h := BOWEncoder_call (BOWMLP_bow_encoder self) xs false in
      MLP_call (BOWMLP_mlp_encoder self) h false
  end.

(** The three encoders as the classifiers see them. *)
Definition CNNEncoder_encoder (self : CNNEncoder) : Encoder :=
  {| Encoder_call := CNNEncoder_call self;
     Encoder_out_units := CNN_out_units self;
     Encoder_n_dknn_layers := CNN_n_dknn_layers self |}.

Definition BOWEncoder_encoder (self : BOWEncoder) : Encoder :=
  {| Encoder_call := BOWEncoder_call self;
     Encoder_out_units := BOW_out_units self;
     Encoder_n_dknn_layers := BOW_n_dknn_layers self |}.

Definition BOWMLPEncoder_encoder (self : BOWMLPEncoder) : Encoder :=
  {| Encoder_call := BOWMLPEncoder_call self;
     Encoder_out_units := BOWMLP_out_units self;
     Encoder_n_dknn_layers := BOWMLP_n_dknn_layers self |}.

(** The class TextClassifier, lines 67-114, without the loss of
    [__call__]. *)
Record TextClassifier := {
  TC_encoder : Encoder;
  TC_output : tensor -> tensor;
  TC_dropout : Q;
  TC_n_dknn_layers : nat
}.

Definition TextClassifier_init (encoder : Encoder) (n_class : nat)
  (dropout : Q) : N TextClassifier :=
  let+ output := L_Linear (Some (Encoder_out_units encoder)) n_class in
  nret {| TC_encoder := encoder; TC_output := output;
          TC_dropout := dropout;
          TC_n_dknn_layers := Encoder_n_dknn_layers encoder |}.

(** Lines 105-110 and 177-181: from the encodings to the outputs. *)
Definition finish_outputs (outputs : tensor) (softmax argmax : bool)
  : tensor :=
  if softmax then F_softmax outputs
  else if argmax then xp_argmax outputs 1
  else outputs.

Definition TextClassifier_predict (self : TextClassifier)
  (xs : list (list Z)) (softmax argmax dknn : bool)
  : N (call_result dknn) :=
  match dknn return N (call_result dknn) with
  | true =>
      let+ (encodings, dknn_layers) :=
        Encoder_call (TC_encoder self) xs true in
      let+ encodings := F_dropout encodings (TC_dropout self) in
      let outputs := TC_output self encodings in
      let outputs := finish_outputs outputs softmax argmax in
      nret (outputs, dknn_layers)
  | false =>
      let+ encodings := Encoder_call (TC_encoder self) xs false in
      let+ encodings := F_dropout encodings (TC_dropout self) in
      let outputs := TC_output self encodings in
      let outputs := finish_outputs outputs softmax argmax in
      nret outputs
  end.

(** The class SNLIClassifier, lines 117-185, without the loss of
    [__call__]. Its input is a list of sequences when [combine] is set and a
    pair of lists of sequences otherwise. *)
Record SNLIClassifier := {
  SNLI_encoder : Encoder;
  SNLI_mlp : MLP;
  SNLI_output : tensor -> tensor;
  SNLI_dropout : Q;
  SNLI_n_dknn_layers : nat;
  SNLI_combine : bool
}.

Definition SNLI_input (combine : bool) : Type :=
  if combine then list (list Z)
  else (list (list Z) * list (list Z))%type.

Definition SNLIClassifier_init (encoder : Encoder) (n_class n_layers : nat)
  (dropout : Q) (combine : bool) : N SNLIClassifier :=
  let+ mlp := MLP_init n_layers (Encoder_out_units encoder * 2) dropout in
  let+ output := L_Linear (Some (Encoder_out_units encoder * 2)%nat)
                          n_class in
  nret {| SNLI_encoder := encoder; SNLI_mlp := mlp; SNLI_output := output;
          SNLI_dropout := dropout;
          SNLI_n_dknn_layers :=
            if combine
            then (MLP_n_dknn_layers mlp + Encoder_n_dknn_layers encoder)%nat
            else (MLP_n_dknn_layers mlp + 1)%nat;
          SNLI_combine := combine |}.

(** Lines 158-168: the encodings and the layers found before the MLP. *)
Definition SNLI_encode (self : SNLIClassifier)
  (xs : SNLI_input (SNLI_combine self)) (dknn : bool)
  : N (tensor * list tensor) :=
  let dknn_layers : list tensor := [] in
  (match SNLI_combine self as combine
         return SNLI_input combine -> N (tensor * list tensor) with
   | true => fun xs =>
       if dknn
       then Encoder_call (SNLI_encoder self) xs true
       else let+ encodings := Encoder_call (SNLI_encoder self) xs false in
            nret (encodings, dknn_layers)
   | false => fun xs =>
       let+ h0 := Encoder_call (SNLI_encoder self) (fst xs) false in
       let+ h1 := Encoder_call (SNLI_encoder self) (snd xs) false in
       let encodings := F_concat [h0; h1] 1 in
       nret (encodings, [encodings])
   end) xs.

Definition SNLIClassifier_predict (self : SNLIClassifier)
  (xs : SNLI_input (SNLI_combine self)) (softmax argmax dknn : bool)
  : N (call_result dknn) :=
  let+ (encodings, dknn_layers) := SNLI_encode self xs dknn in
  let+ encodings := F_dropout encodings (SNLI_dropout self) in
  match dknn return N (call_result dknn) with
  | true =>
      let+ (outputs, _dknn_layers) := MLP_call (SNLI_mlp self) encodings true in
      let dknn_layers := dknn_layers ++ _dknn_layers in
      let outputs := SNLI_output self outputs in
      let outputs := finish_outputs outputs softmax argmax in
      nret (outputs, dknn_layers)
  | false =>
      let+ outputs := MLP_call (SNLI_mlp self) encodings false in
      let outputs := SNLI_output self outputs in
      let outputs := finish_outputs outputs softmax argmax in
      nret outputs
  end.

End NetsModel.

(** ** Concrete scorers, classifiers and data, for the closed examples *)

(** A scorer that predicts label 1 with score 1, measures a variant by a
    third of its length and gives a tenth of the first token as confidence. *)
Definition ex_dknn : DkNN := {|
  predict := fun _ => ([1%Z], [1%Q]);
  get_neighbor_change := fun xs _ =>
    (inject_Z (Z.of_nat (length (concat (map data xs)))) / 3)%Q;
  get_regular_confidence := fun xs _ =>
    map (fun x => (inject_Z (hd 0%Z (data x)) / 10)%Q) xs
|}.

(** A classifier with two classes whose gradient at a token is a seventh of
    the token. *)
Definition ex_model : Classifier := {|
  predict_softmax := fun _ => [[(1 # 4)%Q; (3 # 4)%Q]];
  get_onehot_grad := fun xs =>
    map (fun x => map (fun t => (inject_Z t / 7)%Q) (data x)) xs
|}.

Definition ex_vocab : gmap Z string :=
  list_to_map [(1%Z, "a"); (2%Z, "b"); (3%Z, "<unk>"); (4%Z, "d");
               (5%Z, "e"); (7%Z, "g")].

(** Three probes; the second has a single token. *)
Definition ex_test : list (ndarray * list Z) :=
  [(array1 [1; 2; 3]%Z, [1%Z]); (array1 [7%Z], [0%Z]);
   (array1 [4; 5]%Z, [1%Z])].

(** A forward pass with two designated layers of one unit each: the first
    holds the sum of the tokens, the second their number; the activation row
    of an example is the two joined. *)
Definition ex_layer1 (x : ndarray) : vector :=
  [inject_Z (foldr Z.add 0%Z (data x))].
Definition ex_layer2 (x : ndarray) : vector :=
  [inject_Z (Z.of_nat (length (data x)))].
Definition ex_deep_knn_predict (xs : list ndarray)
  : list vector * list vector :=
  (map (fun x => [(1 # 4)%Q; (3 # 4)%Q]) xs,
   map (fun x => ex_layer1 x ++ ex_layer2 x) xs).

(** A stand-in for the normalization, which does not stay in [Q]: the
    vector divided by the sum of the absolute values of its entries. *)
Definition ex_unitvec (v : vector) : vector :=
  let norm := fold_right (fun q acc => (Qabs q + acc)%Q) 0%Q v in
  if Qeq_bool norm 0 then v else map (fun q => Qred (q / norm)%Q) v.

Definition ex_hash_vector (v : vector) : string :=
  if Qle_bool (hd 0%Q v) 7 then "rbpt_0" else "rbpt_1".
Definition ex_query_keys (v : vector) : list string := ["rbpt_0"; "rbpt_1"].
Definition ex_distance (a b : vector) : Q :=
  Qabs (hd 0%Q a - hd 0%Q b).

Definition ex_train_iter : list (list (ndarray * list Z)) :=
  [[(array1 [1; 2; 3]%Z, [1%Z]); (array1 [4; 5]%Z, [0%Z])]].

(** A small instance of the library: arrays are lists of rationals, the
    generator is a counter, dropout doubles the entries and draws once. *)
Definition ex_chainer : Chainer := {|
  tensor := list Q;
  generator := nat;
  config_train := true;
  Dropout_apply := fun _ x g => (map (fun v => (2 * v)%Q) x, S g);
  F_relu := map (fun v => if Qltb v 0 then 0%Q else v);
  F_max := fun x _ => x;
  F_sum := fun x _ => x;
  F_concat := fun xs _ => concat xs;
  F_squeeze := fun x _ => x;
  F_transpose := fun x _ => x;
  F_softmax := fun x => x;
  xp_argmax := fun x _ => [inject_Z (Z.of_nat (length x))];
  expand_last := fun x => x;
  divide_by_lengths := fun x _ => x;
  concat_examples := fun xs _ => map inject_Z (concat xs);
  L_Linear := fun _ n g =>
    (fun x => map (fun v => (v + inject_Z (Z.of_nat g))%Q) x, S g);
  L_EmbedID := fun _ n _ g => (fun x => x, S g);
  L_Convolution2D := fun _ _ _ _ g => (fun x => x, S g)
|}.

Definition ex_encoder : @Encoder ex_chainer :=
  @BOWEncoder_encoder ex_chainer
    (fst (@BOWEncoder_init ex_chainer 5 3 (1 # 10) 0%nat)).

(** ** Notions used in the statements *)

(** The value the loop writes for [s] when neither total is zero. *)
Definition scaled_value (total_score_pos total_score_neg s : Q) : Q :=
  ((s / (if Qltb s 0 then total_score_neg else total_score_pos)) / 2)%Q.

Definition score_le (p q : nat * Q) : Prop := (snd p <= snd q)%Q.

(** The word printed for position [idx] of [text]. *)
Definition word_at (reverse_vocab : gmap Z string) (text : list Z)
  (idx : nat) : option string :=
  match text !! idx with
  | Some w => reverse_vocab !! w
  | None => None
  end.

(** The raw importance of a score after the sign convention. *)
Definition signed_importance (interp_method : string) (prediction : Z)
  (original_score score : Q) : Q :=
  let raw := raw_importance interp_method original_score score in
  if (prediction =? 1)%Z then (-1 * raw)%Q else raw.

(** Every value the ranking lists is the raw importance of its position. *)
Definition ranking_lists_raw_importance (interp_method : string)
  (original_score : Q) (scores : list Q) : Prop :=
  forall idx v, (idx, v) ∈ ranking scores ->
    exists score, scores !! idx = Some score /\
                  (v == raw_importance interp_method original_score score)%Q.



(** A logged call asks for a prediction on the input [v]. *)
Definition predicted_on (v : ndarray) (ev : event) : Prop :=
  match ev with
  | Call_predict xs | Call_model_predict xs => v ∈ xs
  | _ => False
  end.

(** Every probe of the batch that can be perturbed is processed, whatever
    happened to the others. *)
Definition sound_probes_processed (test : list (ndarray * list Z))
  (log : list event) : Prop :=
  forall x label, (x, label) ∈ test ->
    (exists xs, flatten x = Returned xs) ->
    exists ev, ev ∈ log /\ predicted_on x ev.

(** The batches an iterator yields until it stops, in at most [fuel]
    requests. *)
Fixpoint drain (fuel : nat) (it : SerialIterator)
  : option (outcome (list (list (ndarray * list Z)))) :=
  match fuel with
  | O => None
  | S fuel' =>
      match SerialIterator_next it with
      | Raised e => Some (Raised e)
      | Returned None => Some (Returned [])
      | Returned (Some (batch, it')) =>
          match drain fuel' it' with
          | Some (Returned batches) => Some (Returned (batch :: batches))
          | other => other
          end
      end
  end.

(** The identifiers held by an engine. *)
Definition stored_ids (e : Engine) : list nat :=
  map (fun entry => snd (snd entry)) (storage e).

(** Go through the events of a log that is known in full, closing the case
    of each event with [tac]. *)
Ltac walk_log H tac :=
  repeat (apply elem_of_cons in H as [-> | H]; [tac|]); inversion H.

(** [p] comes before [q] in a stable ascending sort of positions by score. *)
Definition rank_before (p q : nat * Q) : Prop :=
  (snd p < snd q)%Q \/ ((snd p == snd q)%Q /\ (fst p < fst q)%nat).

Definition position_lt (p q : nat * Q) : Prop := (fst p < fst q)%nat.

(** One of the three methods the loop knows. *)
Definition known_method (interp_method : string) : Prop :=
  interp_method = "dknn" \/ interp_method = "softmax"
  \/ interp_method = "grad".

(** An encoder called with [dknn] returns as many layers as it declares. *)
Definition layers_as_declared `{Chainer} (encoder : Encoder) : Prop :=
  forall xs g,
    length (snd (fst (Encoder_call encoder xs true g)))
    = Encoder_n_dknn_layers encoder.

(** The flag [dknn] of an encoder only selects what is returned: the output
    and the generator are those of the call without the flag. *)
Definition flag_selects `{Chainer} (encoder : Encoder) : Prop :=
  forall xs g,
    Encoder_call encoder xs false g
    = (fst (fst (Encoder_call encoder xs true g)),
       snd (Encoder_call encoder xs true g)).

(** ** Facts about the monads *)

Lemma bind_Returned {A B} (a : A) (log : list event) (f : A -> M B) :
  bind (Returned a, log) f = (fst (f a), log ++ snd (f a)).
Proof. unfold bind. by destruct (f a). Qed.

Lemma bind_Raised {A B} (e : exception) (log : list event) (f : A -> M B) :
  bind (Raised e, log) f = (Raised e, log).
Proof. reflexivity. Qed.

Lemma for_collect_pure {A B} (l : list A) (f : A -> B) (ev : A -> event) :
  for_collect l (fun a => (Returned (f a), [ev a]))
  = (Returned (map f l), map ev l).
Proof.
  induction l as [|a l IH]; [done|].
  cbn [for_collect]. rewrite IH. cbn. by rewrite app_nil_r.
Qed.

(** ** Facts about flatten *)

Lemma flatten_array1 (l : list Z) :
  flatten (array1 l)
  = if (1 <? length l)%nat
    then Returned (map (fun i => array1 (remove_at i l)) (seq 0 (length l)))
    else Raised AssertionError.
Proof.
  unfold flatten, ndim, shape0, array1.
  cbn [shape data length hd Nat.eqb negb].
  by destruct (1 <? length l)%nat.
Qed.

Lemma remove_at_length (i : nat) (l : list Z) :
  (i < length l)%nat -> length (remove_at i l) = (length l - 1)%nat.
Proof.
  intros Hi. unfold remove_at.
  rewrite length_app, length_take, length_drop. lia.
Qed.

Lemma remove_at_lookup (i k : nat) (l : list Z) :
  (i < length l)%nat ->
  remove_at i l !! k = l !! (if decide (k < i)%nat then k else S k).
Proof.
  intros Hi. unfold remove_at. case_decide as Hk.
  - rewrite lookup_app_l by (rewrite length_take; lia).
    by rewrite lookup_take_lt.
  - rewrite lookup_app_r by (rewrite length_take; lia).
    rewrite length_take, lookup_drop. f_equal. lia.
Qed.

Lemma leave_one_out_run (dknn : DkNN) (x : ndarray) (use_credibility : bool)
  (y : Z) (ys : list Z) (s0 : Q) (ss : list Q) (xs : list ndarray) :
  predict dknn [x] = (y :: ys, s0 :: ss) ->
  flatten x = Returned xs ->
  leave_one_out dknn x false false use_credibility
  = (Returned (y, s0,
               if use_credibility
               then map (fun v => get_neighbor_change dknn [v] [x]) xs
               else get_regular_confidence dknn xs (map (fun _ => y) xs)),
     Call_predict [x]
       :: (if use_credibility
           then map (fun v => Call_get_neighbor_change [v] [x]) xs
           else [Call_get_regular_confidence xs (map (fun _ => y) xs)])).
Proof.
  intros Hp Hf. unfold leave_one_out, call_predict.
  cbn. rewrite Hp. cbn. rewrite Hf. cbn.
  destruct use_credibility.
  - rewrite (for_collect_pure xs
               (fun v => get_neighbor_change dknn [v] [x])
               (fun v => Call_get_neighbor_change [v] [x])).
    cbn. by rewrite app_nil_r.
  - reflexivity.
Qed.

Lemma leave_one_out_flatten_raises (dknn : DkNN) (x : ndarray)
  (use_credibility : bool) (y : Z) (ys : list Z) (s0 : Q) (ss : list Q)
  (e : exception) :
  predict dknn [x] = (y :: ys, s0 :: ss) ->
  flatten x = Raised e ->
  leave_one_out dknn x false false use_credibility
  = (Raised e, [Call_predict [x]]).
Proof.
  intros Hp Hf. unfold leave_one_out, call_predict.
  cbn. rewrite Hp. cbn. rewrite Hf. reflexivity.
Qed.

(** ** Facts about the ranking *)

Lemma enumerate_length {A} (l : list A) : length (enumerate l) = length l.
Proof.
  unfold enumerate. rewrite length_zip_with, length_seq. lia.
Qed.

Lemma enumerate_lookup {A} (l : list A) (i : nat) :
  enumerate l !! i = (fun a => (i, a)) <$> l !! i.
Proof.
  unfold enumerate. rewrite lookup_zip_with.
  destruct (l !! i) as [a|] eqn:Hl.
  - apply lookup_lt_Some in Hl as Hlt.
    rewrite lookup_seq_lt by done. reflexivity.
  - by destruct (seq 0 (length l) !! i).
Qed.

Lemma insert_by_score_perm (p : nat * Q) (l : list (nat * Q)) :
  Permutation (insert_by_score p l) (p :: l).
Proof.
  induction l as [|q l IH]; cbn; [done|].
  destruct (Qle_bool (snd p) (snd q)); [done|].
  rewrite IH. apply perm_swap.
Qed.

Lemma sorted_by_score_perm (l : list (nat * Q)) :
  Permutation (sorted_by_score l) l.
Proof.
  induction l as [|p l IH]; cbn; [done|].
  rewrite insert_by_score_perm. by constructor.
Qed.

Lemma enumerate_ids {A} (l : list A) :
  map fst (enumerate l) = seq 0 (length l).
Proof.
  unfold enumerate. generalize 0%nat.
  induction l as [|a l IH]; intros n; cbn; [done|].
  f_equal. apply IH.
Qed.

Lemma ranking_positions (scores : list Q) :
  Permutation (map fst (ranking scores)) (seq 0 (length scores)).
Proof.
  unfold ranking. rewrite (sorted_by_score_perm (enumerate scores)).
  by rewrite enumerate_ids.
Qed.

Lemma ranking_length (scores : list Q) :
  length (ranking scores) = length scores.
Proof.
  unfold ranking.
  rewrite (Permutation_length (sorted_by_score_perm _)).
  apply enumerate_length.
Qed.

(** ** Variant generation *)

(** C2: for a one-dimensional probe of length L, [flatten] returns exactly
    when 1 < L; otherwise it raises AssertionError and so does the ranker,
    after the one prediction on the probe and before any variant is scored.
    When it returns, it returns L variants, the i-th being the probe without
    position i (of length L - 1, the other tokens in their order); the ranker
    scores exactly these variants, in their order, and returns one score per
    variant; the ranking built from these scores has length L and lists
    every position of the probe once. *)
Theorem flatten_one_variant_per_position (dknn : DkNN) (l : list Z)
  (use_credibility : bool) (y : Z) (ys : list Z) (s0 : Q) (ss : list Q) :
  predict dknn [array1 l] = (y :: ys, s0 :: ss) ->
  (forall xs labels,
     length (get_regular_confidence dknn xs labels) = length xs) ->
  ((exists xs, flatten (array1 l) = Returned xs) <-> (1 < length l)%nat) /\
  (~ (1 < length l)%nat ->
   flatten (array1 l) = Raised AssertionError /\
   leave_one_out dknn (array1 l) false false use_credibility
   = (Raised AssertionError, [Call_predict [array1 l]])) /\
  (forall xs, flatten (array1 l) = Returned xs ->
     length xs = length l /\
     (forall i, (i < length l)%nat ->
        xs !! i = Some (array1 (remove_at i l)) /\
        length (remove_at i l) = (length l - 1)%nat /\
        forall k, remove_at i l !! k
                  = l !! (if decide (k < i)%nat then k else S k)) /\
     exists scores,
       leave_one_out dknn (array1 l) false false use_credibility
       = (Returned (y, s0, scores),
          Call_predict [array1 l]
            :: (if use_credibility
                then map (fun v => Call_get_neighbor_change [v] [array1 l])
                         xs
                else [Call_get_regular_confidence
                        xs (map (fun _ => y) xs)])) /\
       scores
       = (if use_credibility
          then map (fun v => get_neighbor_change dknn [v] [array1 l]) xs
          else get_regular_confidence dknn xs (map (fun _ => y) xs)) /\
       length scores = length xs /\
       length (ranking scores) = length l /\
       Permutation (map fst (ranking scores)) (seq 0 (length l))).
Proof.
  intros Hp Hconf. rewrite flatten_array1.
  destruct (1 <? length l)%nat eqn:HL.
  - apply Nat.ltb_lt in HL. split; [|split].
    + split; [done|]. intros _. eauto.
    + intros Hn. contradiction.
    + intros xs [= <-].
      set (xs := map (fun i => array1 (remove_at i l)) (seq 0 (length l))).
      assert (Hxs : length xs = length l)
        by (unfold xs; by rewrite length_map, length_seq).
      split; [exact Hxs|]. split.
      * intros i Hi. split; [|split].
        -- unfold xs.
           rewrite list_lookup_fmap, lookup_seq_lt by done. reflexivity.
        -- by apply remove_at_length.
        -- intros k. by apply remove_at_lookup.
      * eexists. split.
        -- eapply leave_one_out_run; [exact Hp|].
           rewrite flatten_array1.
           apply Nat.ltb_lt in HL as ->. reflexivity.
        -- split; [reflexivity|].
           assert (Hlen : length
                            (if use_credibility
                             then map (fun v => get_neighbor_change
                                                  dknn [v] [array1 l]) xs
                             else get_regular_confidence
                                    dknn xs (map (fun _ => y) xs))
                          = length xs).
           { destruct use_credibility; [by rewrite length_map|apply Hconf]. }
           split; [exact Hlen|].
           split; [by rewrite ranking_length, Hlen|].
           rewrite <- Hxs, <- Hlen. apply ranking_positions.
  - apply Nat.ltb_ge in HL. split; [|split].
    + split; [intros [xs [=]]|lia].
    + intros _. split; [done|].
      eapply leave_one_out_flatten_raises; [exact Hp|].
      rewrite flatten_array1.
      by apply Nat.ltb_ge in HL as ->.
    + intros xs [=].
Qed.

Lemma flatten_one_variant_per_position_witness :
  predict ex_dknn [array1 [1; 2; 3]%Z] = ([1%Z], [1%Q]) /\
  (forall xs labels,
     length (get_regular_confidence ex_dknn xs labels) = length xs) /\
  exists xs,
    flatten (array1 [1; 2; 3]%Z) = Returned xs /\
    xs = [array1 [2; 3]%Z; array1 [1; 3]%Z; array1 [1; 2]%Z] /\
    exists scores,
      leave_one_out ex_dknn (array1 [1; 2; 3]%Z) false false false
      = (Returned (1%Z, 1%Q, scores),
         [Call_predict [array1 [1; 2; 3]%Z];
          Call_get_regular_confidence xs [1; 1; 1]%Z]) /\
      length (ranking scores) = 3%nat.
Proof.
  assert (Hconf : forall xs labels,
            length (get_regular_confidence ex_dknn xs labels) = length xs).
  { intros xs labels. cbn. by rewrite length_map. }
  split; [reflexivity|]. split; [exact Hconf|].
  eexists. split; [vm_compute; reflexivity|]. split; [reflexivity|].
  destruct (proj2 (proj2 (flatten_one_variant_per_position ex_dknn
                            [1; 2; 3]%Z false 1%Z [] 1%Q [] eq_refl Hconf))
              [array1 [2; 3]%Z; array1 [1; 3]%Z; array1 [1; 2]%Z] eq_refl)
    as (_ & _ & scores & Hrun & _ & _ & Hrank & _).
  exists scores. split; [exact Hrun|exact Hrank].
Defined.

(** ** The two-sided normalization *)

Lemma Qltb_lt (a b : Q) : Qltb a b = true <-> (a < b)%Q.
Proof.
  unfold Qltb. rewrite negb_true_iff. split.
  - intros H. apply Qnot_le_lt. intros Hle.
    apply Qle_bool_iff in Hle. congruence.
  - intros H. destruct (Qle_bool b a) eqn:E; [|done].
    apply Qle_bool_iff in E. by apply Qlt_not_le in H.
Qed.

Lemma Qltb_ge (a b : Q) : Qltb a b = false <-> (b <= a)%Q.
Proof.
  unfold Qltb. rewrite negb_false_iff. apply Qle_bool_iff.
Qed.

(** Each total only grows, and ends no smaller than its start plus the
    magnitude of any score of its side. *)
Lemma totals_step_bounds (l : list Q) (acc : Q * Q) :
  (fst acc <= fst (fold_left totals_step l acc))%Q /\
  (snd acc <= snd (fold_left totals_step l acc))%Q /\
  Forall (fun s =>
            if Qltb s 0
            then (- s + snd acc <= snd (fold_left totals_step l acc))%Q
            else (s + fst acc <= fst (fold_left totals_step l acc))%Q) l.
Proof.
  revert acc. induction l as [|s l IH]; intros [p n]; cbn [fold_left].
  - cbn. repeat split; [lra|lra|constructor].
  - destruct (IH (totals_step (p, n) s)) as (Hp & Hn & Hall).
    set (r := fold_left totals_step l (totals_step (p, n) s)) in *.
    clearbody r. clear IH.
    destruct (totals_step (p, n) s) as [p' n'] eqn:Hstep.
    cbn [fst snd] in *. unfold totals_step in Hstep.
    destruct (Qltb s 0) eqn:Hs; injection Hstep as <- <-.
    + pose proof (proj1 (Qltb_lt s 0) Hs) as Hlt.
      assert (Habs : (Qabs s == - s)%Q) by (apply Qabs_neg; lra).
      repeat split; [lra|lra|]. constructor.
      * cbn beta. rewrite Hs. lra.
      * eapply Forall_impl; [exact Hall|]. intros t Ht. cbn in Ht.
        destruct (Qltb t 0); lra.
    + pose proof (proj1 (Qltb_ge s 0) Hs) as Hge.
      repeat split; [lra|lra|]. constructor.
      * cbn beta. rewrite Hs. lra.
      * eapply Forall_impl; [exact Hall|]. intros t Ht. cbn in Ht.
        destruct (Qltb t 0); lra.
Qed.

Lemma totals_positive (l : list Q) :
  (0 < fst (totals l))%Q /\ (0 < snd (totals l))%Q /\
  Forall (fun s => if Qltb s 0 then (- s < snd (totals l))%Q
                   else (s < fst (totals l))%Q) l.
Proof.
  unfold totals.
  destruct (totals_step_bounds l (floor_1e_6, floor_1e_6))
    as (Hp & Hn & Hall).
  cbn [fst snd] in *.
  assert (Hfloor : (0 < floor_1e_6)%Q) by reflexivity.
  repeat split; [lra|lra|].
  eapply Forall_impl; [exact Hall|]. intros s Hs. cbn in Hs.
  destruct (Qltb s 0); lra.
Qed.

Lemma py_div_nonzero (a b : Q) :
  (0 < b)%Q -> py_div a b = Returned (a / b)%Q.
Proof.
  intros Hb. unfold py_div.
  destruct (Qeq_bool b 0) eqn:E; [|done].
  apply Qeq_bool_iff in E. lra.
Qed.

Lemma scaled_returns (tp tn s : Q) :
  (0 < tp)%Q -> (0 < tn)%Q ->
  scaled tp tn s = Returned (scaled_value tp tn s).
Proof.
  intros Hp Hn. unfold scaled, scaled_value.
  destruct (Qltb s 0); by rewrite py_div_nonzero.
Qed.

(** The in-place loop, started at position [length done] with the items of
    [done] already rewritten, rewrites the remaining items one by one. *)
Lemma scale_loop_spec (tp tn : Q) (rest done : list Q) :
  (0 < tp)%Q -> (0 < tn)%Q ->
  scale_loop tp tn (seq (length done) (length rest)) (done ++ rest)
  = Returned (done ++ map (scaled_value tp tn) rest).
Proof.
  intros Hp Hn. revert done.
  induction rest as [|s rest IH]; intros done; cbn [length seq scale_loop].
  - cbn [map]. by rewrite app_nil_r.
  - rewrite list_lookup_middle by done.
    rewrite scaled_returns by done. cbn [obind map].
    rewrite insert_app_r_alt, Nat.sub_diag by done. cbn [insert list_insert].
    specialize (IH (done ++ [scaled_value tp tn s])).
    rewrite length_app, Nat.add_1_r, <- !app_assoc in IH.
    exact IH.
Qed.

Lemma normalize_returns (l : list Q) :
  normalize l
  = Returned (center (map (scaled_value (fst (totals l)) (snd (totals l))) l)).
Proof.
  unfold normalize.
  destruct (totals_positive l) as (Hp & Hn & _).
  destruct (totals l) as [tp tn]. cbn [fst snd] in *.
  pose proof (scale_loop_spec tp tn l [] Hp Hn) as Hloop.
  cbn [length app] in Hloop. by rewrite Hloop.
Qed.

(** C1: the two-sided normalization never divides by zero, whichever
    partition is empty; it returns one value per position, in [0,1]; a
    negative raw importance gives a value in [0, 1/2] and a non-negative one
    a value in [1/2, 1]. *)
Theorem normalize_two_sided_range (l : list Q) :
  exists vs,
    normalize l = Returned vs /\
    length vs = length l /\
    (0 < fst (totals l))%Q /\ (0 < snd (totals l))%Q /\
    forall i s v, l !! i = Some s -> vs !! i = Some v ->
      (0 <= v <= 1)%Q /\
      ((s < 0)%Q -> (0 <= v <= 1 # 2)%Q) /\
      ((0 <= s)%Q -> (1 # 2 <= v <= 1)%Q).
Proof.
  eexists. split; [apply normalize_returns|].
  destruct (totals_positive l) as (Hp & Hn & Hall).
  split; [unfold center; by rewrite !length_map|].
  split; [done|]. split; [done|].
  intros i s v Hs Hv. unfold center in Hv.
  rewrite !list_lookup_fmap, Hs in Hv. cbn in Hv. injection Hv as <-.
  rewrite Forall_lookup in Hall. specialize (Hall i s Hs). cbn beta in Hall.
  unfold scaled_value.
  set (tp := fst (totals l)) in *. set (tn := snd (totals l)) in *.
  destruct (Qltb s 0) eqn:Hneg.
  - apply Qltb_lt in Hneg.
    assert (Hlo : (-1 <= s / tn)%Q) by (apply Qle_shift_div_l; lra).
    assert (Hhi : (s / tn <= 0)%Q) by (apply Qle_shift_div_r; lra).
    set (q := (s / tn)%Q) in *. clearbody q.
    change (q / 2)%Q with (q * (1 # 2))%Q. repeat split; intros; lra.
  - apply Qltb_ge in Hneg.
    assert (Hlo : (0 <= s / tp)%Q) by (apply Qle_shift_div_l; lra).
    assert (Hhi : (s / tp <= 1)%Q) by (apply Qle_shift_div_r; lra).
    set (q := (s / tp)%Q) in *. clearbody q.
    change (q / 2)%Q with (q * (1 # 2))%Q. repeat split; intros; lra.
Qed.

Lemma normalize_two_sided_range_witness :
  exists vs,
    normalize [(-1 # 2); (1 # 3); 0; (-1 # 4)]%Q = Returned vs /\
    length vs = 4%nat /\
    Forall2 Qeq vs [(250001 # 1500002); (2000003 # 2000006); (1 # 2);
                    (500001 # 1500002)]%Q.
Proof.
  destruct (normalize_two_sided_range [(-1 # 2); (1 # 3); 0; (-1 # 4)]%Q)
    as (vs & Hvs & Hlen & _).
  exists vs. split; [exact Hvs|]. split; [exact Hlen|].
  vm_compute in Hvs. injection Hvs as <-.
  repeat constructor.
Defined.

(** ** The sign convention *)

Lemma Qmult_minus_one (n : Q) : (-1 * n)%Q = (- n)%Q.
Proof. destruct n as [[|p|p] d]; reflexivity. Qed.

(** ** Sorting by score *)

Lemma insert_by_score_sorted (p : nat * Q) (l : list (nat * Q)) :
  StronglySorted score_le l -> StronglySorted score_le (insert_by_score p l).
Proof.
  induction 1 as [|q l Hl IH Hq]; cbn.
  - repeat constructor.
  - destruct (Qle_bool (snd p) (snd q)) eqn:E.
    + apply Qle_bool_iff in E. constructor; [by constructor|].
      constructor; [exact E|].
      eapply Forall_impl; [exact Hq|]. unfold score_le. intros r Hr. lra.
    + assert (Hqp : score_le q p).
      { unfold score_le. destruct (Qlt_le_dec (snd q) (snd p)) as [H|H].
        - lra.
        - apply Qle_bool_iff in H. congruence. }
      constructor; [exact IH|].
      rewrite insert_by_score_perm. by constructor.
Qed.

Lemma sorted_by_score_sorted (l : list (nat * Q)) :
  StronglySorted score_le (sorted_by_score l).
Proof.
  induction l as [|p l IH]; cbn; [constructor|].
  by apply insert_by_score_sorted.
Qed.

(** ** The loop that fills [normalized_scores] and [words] *)

Lemma raw_loop_returned (interp_method : string) (original_score : Q)
  (reverse_vocab : gmap Z string) (text : list Z) (items : list (nat * Q))
  (ns ns' : list Q) (ws ws' : list string) :
  raw_loop interp_method original_score reverse_vocab text items ns ws
  = Returned (ns', ws') ->
  ns' = ns ++ map (fun it => raw_importance interp_method original_score
                                            (snd it)) items /\
  exists words,
    ws' = ws ++ words /\
    Forall2 (fun it word => word_at reverse_vocab text (fst it) = Some word)
            items words.
Proof.
  revert ns ws. induction items as [|[idx score] items IH]; intros ns ws H.
  - cbn in H. injection H as <- <-. rewrite !app_nil_r.
    split; [done|]. exists []. rewrite app_nil_r. split; [done|constructor].
  - cbn [raw_loop] in H. unfold index, getitem in H.
    destruct (text !! idx) as [w|] eqn:Hw; cbn [obind] in H; [|done].
    destruct (reverse_vocab !! w) as [word|] eqn:Hword;
      cbn [obind] in H; [|done].
    apply IH in H as (-> & words & -> & Hall).
    split.
    + cbn [map snd]. by rewrite <- app_assoc.
    + exists (word :: words). split; [by rewrite <- app_assoc|].
      constructor; [|exact Hall].
      unfold word_at. cbn [fst]. by rewrite Hw.
Qed.

Lemma raw_loop_returns (interp_method : string) (original_score : Q)
  (reverse_vocab : gmap Z string) (text : list Z) (items : list (nat * Q))
  (ns : list Q) (ws words : list string) :
  Forall2 (fun it word => word_at reverse_vocab text (fst it) = Some word)
          items words ->
  raw_loop interp_method original_score reverse_vocab text items ns ws
  = Returned (ns ++ map (fun it => raw_importance interp_method original_score
                                                  (snd it)) items,
              ws ++ words).
Proof.
  intros Hall. revert ns ws.
  induction Hall as [|[idx score] word items words Hword Hall IH];
    intros ns ws.
  - cbn. by rewrite !app_nil_r.
  - cbn [raw_loop]. unfold word_at in Hword. cbn [fst] in Hword.
    unfold index, getitem.
    destruct (text !! idx) as [w|]; [|done]. cbn [obind].
    rewrite Hword. cbn [obind]. rewrite IH.
    cbn [map snd]. by rewrite <- !app_assoc.
Qed.

Lemma map_snd_enumerate {A B} (f : A -> B) (l : list A) :
  map (fun it => f (snd it)) (enumerate l) = map f l.
Proof.
  unfold enumerate. generalize 0%nat.
  induction l as [|a l IH]; intros n; cbn; [done|].
  f_equal. apply IH.
Qed.

(** ** The ranking and the heat map of one probe *)

Lemma flip_sign_raw (interp_method : string) (prediction : Z)
  (original_score : Q) (scores : list Q) :
  flip_sign prediction (map (raw_importance interp_method original_score)
                            scores)
  = map (signed_importance interp_method prediction original_score) scores.
Proof.
  unfold flip_sign, signed_importance.
  destruct (prediction =? 1)%Z; [|done].
  by rewrite map_map.
Qed.

Lemma heatmap_returned (reverse_vocab : gmap Z string)
  (interp_method : string) (prediction : Z) (original_score : Q)
  (scores : list Q) (text : list Z) (visual : list (string * Q)) :
  heatmap reverse_vocab interp_method prediction original_score scores text
  = Returned visual ->
  let raw := map (signed_importance interp_method prediction original_score)
                 scores in
  exists words,
    Forall2 (fun it word => word_at reverse_vocab text (fst it) = Some word)
            (enumerate scores) words /\
    visual = colorize words
               (center (map (scaled_value (fst (totals raw))
                                          (snd (totals raw))) raw)).
Proof.
  unfold heatmap. intros H.
  destruct (raw_loop _ _ _ _ _ _ _) as [e|[ns ws]] eqn:Hraw;
    cbn [obind] in H; [done|].
  apply raw_loop_returned in Hraw as (-> & words & -> & Hall).
  cbn [app] in H.
  rewrite (map_snd_enumerate (raw_importance interp_method original_score))
    in H.
  rewrite flip_sign_raw, normalize_returns in H. cbn [obind] in H.
  injection H as <-. exists words. split; [exact Hall|reflexivity].
Qed.

Lemma colorize_values (words : list string) (color_array : list Q) :
  length color_array = length words ->
  map snd (colorize words color_array) = color_array.
Proof.
  intros Hlen. unfold colorize. rewrite map_map.
  rewrite <- (snd_zip words color_array) at 2 by lia.
  apply map_ext. by intros [word color].
Qed.

(** C5: the raw importances are negated, every one of them, exactly when the
    predicted label is 1, and for any other label they stay as they are; the
    values of the heat map are the normalization of the list so adjusted. *)
Theorem flip_sign_iff_positive (prediction : Z) (raw : list Q) :
  (prediction = 1%Z -> flip_sign prediction raw = map Qopp raw) /\
  (prediction <> 1%Z -> flip_sign prediction raw = raw) /\
  forall reverse_vocab interp_method original_score scores text visual,
    raw = map (raw_importance interp_method original_score) scores ->
    heatmap reverse_vocab interp_method prediction original_score scores text
    = Returned visual ->
    normalize (flip_sign prediction raw) = Returned (map snd visual).
Proof.
  split; [|split].
  - intros ->. cbn. apply map_ext. intros n. apply Qmult_minus_one.
  - intros Hne. unfold flip_sign. by apply Z.eqb_neq in Hne as ->.
  - intros reverse_vocab interp_method original_score scores text visual
           -> H.
    apply heatmap_returned in H as (words & Hall & ->).
    apply Forall2_length in Hall. rewrite enumerate_length in Hall.
    rewrite flip_sign_raw, normalize_returns. f_equal.
    rewrite colorize_values; [done|].
    unfold center. by rewrite !length_map.
Qed.

Lemma flip_sign_iff_positive_witness :
  flip_sign 1 [(1 # 2); (-1 # 3)]%Q = [(-1 # 2); (1 # 3)]%Q /\
  flip_sign 0 [(1 # 2); (-1 # 3)]%Q = [(1 # 2); (-1 # 3)]%Q.
Proof.
  split.
  - exact (proj1 (flip_sign_iff_positive 1 [(1 # 2); (-1 # 3)]%Q) eq_refl).
  - apply (proj1 (proj2 (flip_sign_iff_positive 0 [(1 # 2); (-1 # 3)]%Q))).
    lia.
Defined.

(** C6: the ranking holds the (position, score) pairs of the probe, each
    once, in ascending order of score; the heat map has one entry per
    position, and entry i is the word of token i with the value computed
    from score i. *)
Theorem ranking_sorted_heatmap_by_position (reverse_vocab : gmap Z string)
  (interp_method : string) (prediction : Z) (original_score : Q)
  (scores : list Q) (text : list Z) (visual : list (string * Q)) :
  heatmap reverse_vocab interp_method prediction original_score scores text
  = Returned visual ->
  Permutation (ranking scores) (enumerate scores) /\
  (forall i, enumerate scores !! i = (fun s => (i, s)) <$> scores !! i) /\
  StronglySorted score_le (ranking scores) /\
  length visual = length scores /\
  forall i s, scores !! i = Some s ->
    exists w word,
      text !! i = Some w /\ reverse_vocab !! w = Some word /\
      let raw := map (signed_importance interp_method prediction
                                        original_score) scores in
      visual !! i
      = Some (if (word =? "<unk>")%string then "&ltunk&gt" else word,
              ((1 # 2)
               + scaled_value (fst (totals raw)) (snd (totals raw))
                   (signed_importance interp_method prediction
                                      original_score s))%Q).
Proof.
  intros H. split; [apply sorted_by_score_perm|].
  split; [apply enumerate_lookup|].
  split; [apply sorted_by_score_sorted|].
  apply heatmap_returned in H as (words & Hall & ->).
  pose proof (Forall2_length _ _ _ Hall) as Hlen.
  rewrite enumerate_length in Hlen.
  set (raw := map _ scores).
  split.
  - unfold colorize, center.
    rewrite length_map, length_zip_with, !length_map.
    subst raw. rewrite length_map. lia.
  - intros i s Hs.
    assert (Hit : enumerate scores !! i = Some (i, s))
      by (by rewrite enumerate_lookup, Hs).
    destruct (Forall2_lookup_l _ _ _ _ _ Hall Hit) as (word & Hword & Hat).
    unfold word_at in Hat. cbn [fst] in Hat.
    destruct (text !! i) as [w|] eqn:Hw; [|done].
    exists w, word. split; [done|]. split; [done|]. cbn zeta.
    unfold colorize, center.
    rewrite list_lookup_fmap, lookup_zip_with, Hword. cbn [mbind option_bind].
    rewrite !list_lookup_fmap. subst raw.
    rewrite list_lookup_fmap, Hs. reflexivity.
Qed.

Lemma ranking_sorted_heatmap_by_position_witness :
  exists visual,
    heatmap ex_vocab "softmax" 1 1 [(2 # 10); (1 # 10); (1 # 10)]%Q
            [1; 2; 3]%Z
    = Returned visual /\
    map fst visual = ["a"; "b"; "&ltunk&gt"] /\
    ranking [(2 # 10); (1 # 10); (1 # 10)]%Q
    = [(1%nat, (1 # 10)%Q); (2%nat, (1 # 10)%Q); (0%nat, (2 # 10)%Q)] /\
    StronglySorted score_le (ranking [(2 # 10); (1 # 10); (1 # 10)]%Q) /\
    length visual = 3%nat.
Proof.
  eexists. split; [vm_compute; reflexivity|].
  split; [reflexivity|]. split; [reflexivity|].
  assert (Hrun : heatmap ex_vocab "softmax" 1 1
                   [(2 # 10); (1 # 10); (1 # 10)]%Q [1; 2; 3]%Z
                 = Returned
                     [("a", (68000020000 # 104000040000)%Q);
                      ("b", (70000020000 # 104000040000)%Q);
                      ("&ltunk&gt", (70000020000 # 104000040000)%Q)])
    by (vm_compute; reflexivity).
  destruct (ranking_sorted_heatmap_by_position ex_vocab "softmax" 1 1
              [(2 # 10); (1 # 10); (1 # 10)]%Q [1; 2; 3]%Z _ Hrun)
    as (_ & _ & Hsorted & Hlen & _).
  split; [exact Hsorted|exact Hlen].
Defined.

(** ** Raw importance and the ranking *)

Lemma map_snd_enumerate_id {A} (l : list A) : map snd (enumerate l) = l.
Proof.
  rewrite <- (map_id l) at 2. apply (map_snd_enumerate (fun a => a)).
Qed.

Lemma ranking_entries (scores : list Q) (idx : nat) (v : Q) :
  (idx, v) ∈ ranking scores <-> scores !! idx = Some v.
Proof.
  unfold ranking. rewrite (sorted_by_score_perm (enumerate scores)).
  split.
  - intros H. apply list_elem_of_lookup in H as [i Hi].
    rewrite enumerate_lookup in Hi.
    destruct (scores !! i) as [a|] eqn:Ha; [|done].
    cbn in Hi. by injection Hi as <- <-.
  - intros H. apply list_elem_of_lookup. exists idx.
    by rewrite enumerate_lookup, H.
Qed.

(** C4, for the code as it is: the raw importance that goes into the heat
    map is the score minus the baseline score for the methods dknn and
    softmax, and the gradient itself for the method grad; the ranking lists
    the scores themselves, for every method: its entries are the pairs of a
    position and the score of that position, nothing subtracted. *)
Theorem raw_importance_by_method (reverse_vocab : gmap Z string)
  (interp_method : string) (original_score : Q) (scores : list Q)
  (text : list Z) (normalized_scores : list Q) (words : list string) :
  raw_loop interp_method original_score reverse_vocab text
           (enumerate scores) [] []
  = Returned (normalized_scores, words) ->
  (interp_method = "dknn" \/ interp_method = "softmax" ->
   normalized_scores = map (fun score => (score - original_score)%Q) scores)
  /\
  (interp_method = "grad" -> normalized_scores = scores) /\
  Permutation (map snd (ranking scores)) scores /\
  (forall idx v, (idx, v) ∈ ranking scores <-> scores !! idx = Some v).
Proof.
  intros H. apply raw_loop_returned in H as (-> & _).
  cbn [app].
  rewrite (map_snd_enumerate (raw_importance interp_method original_score)).
  split; [|split; [|split]].
  - intros [-> | ->]; reflexivity.
  - intros ->. unfold raw_importance. cbn. apply map_id.
  - unfold ranking. rewrite sorted_by_score_perm.
    by rewrite map_snd_enumerate_id.
  - apply ranking_entries.
Qed.

(** C4 does not hold for the ranking: with the method softmax, a baseline
    score of 1 and the variant scores 2/10, 1/10, 1/10, the ranking lists 1/10
    at position 1, not 1/10 - 1. *)
Lemma ranking_lists_scores_not_differences :
  exists y original_score scores log,
    rank ex_dknn ex_model "softmax" (array1 [1; 2; 3]%Z)
    = (Returned (y, original_score, scores), log) /\
    ~ ranking_lists_raw_importance "softmax" original_score scores.
Proof.
  eexists _, _, _, _. split; [vm_compute; reflexivity|].
  intros H. destruct (H 1%nat (1 # 10)%Q) as (score & Hscore & Heq).
  - vm_compute. constructor.
  - vm_compute in Hscore. injection Hscore as <-.
    vm_compute in Heq. discriminate.
Qed.

Lemma raw_importance_by_method_witness :
  raw_loop "softmax" 1 ex_vocab [1; 2; 3]%Z
           (enumerate [(2 # 10); (1 # 10); (1 # 10)]%Q) [] []
  = Returned (map (fun score => (score - 1)%Q)
                  [(2 # 10); (1 # 10); (1 # 10)]%Q,
              ["a"; "b"; "<unk>"]) /\
  (1%nat, (1 # 10)%Q) ∈ ranking [(2 # 10); (1 # 10); (1 # 10)]%Q.
Proof.
  assert (Hrun : raw_loop "softmax" 1 ex_vocab [1; 2; 3]%Z
                   (enumerate [(2 # 10); (1 # 10); (1 # 10)]%Q) [] []
                 = Returned (map (fun score => (score - 1)%Q)
                                 [(2 # 10); (1 # 10); (1 # 10)]%Q,
                             ["a"; "b"; "<unk>"]))
    by (vm_compute; reflexivity).
  split; [exact Hrun|].
  exact (proj2 (proj2 (proj2 (proj2 (raw_importance_by_method ex_vocab
                                       "softmax" 1 _ _ _ _ Hrun)))
                 1%nat (1 # 10)%Q) eq_refl).
Defined.

(** ** What each method scores, and against what *)


Lemma vanilla_grad_returned (model : Classifier) (x : ndarray)
  (bigrams snli use_credibility : bool) (y : Z) (s0 : Q) (scores : list Q)
  (log : list event) :
  vanilla_grad model x bigrams snli use_credibility
  = (Returned (y, s0, scores), log) ->
  argmax (concat (predict_softmax model [x])) = Returned y /\
  maximum (concat (predict_softmax model [x])) = Returned s0 /\
  get_onehot_grad model [x] !! 0%nat = Some scores /\
  log = [Call_model_predict [x]; Call_get_onehot_grad [x]].
Proof.
  unfold vanilla_grad, call_model_predict, call_get_onehot_grad, index.
  intros H. cbn in H.
  destruct (argmax _) as [e|y'] eqn:Hy; cbn in H; [discriminate|].
  destruct (maximum _) as [e|s0'] eqn:Hs; cbn in H; [discriminate|].
  destruct (get_onehot_grad model [x] !! 0%nat) as [g|] eqn:Hg;
    cbn in H; [|discriminate].
  by injection H as <- <- <- <-.
Qed.







(** ** A probe that fails inside the loop of main *)

Lemma bind_lift_Returned {A B} (a : A) (k : A -> M B) :
  bind (lift (Returned a)) k = k a.
Proof. unfold lift, bind. by destruct (k a). Qed.

Lemma bind_emit {B} (ev : event) (k : unit -> M B) :
  bind (emit ev) k = (fst (k tt), ev :: snd (k tt)).
Proof. unfold emit, bind. by destruct (k tt). Qed.

Lemma for_each_print_scores (reverse_vocab : gmap Z string) (text : list Z)
  (l : list (nat * Q)) :
  Forall (fun it => is_Some (word_at reverse_vocab text (fst it))) l ->
  exists printed,
    for_each l (print_score reverse_vocab text) = (Returned tt, printed) /\
    Forall2 (fun it ev =>
               exists word, word_at reverse_vocab text (fst it) = Some word /\
                            ev = Print_score (snd it) word) l printed.
Proof.
  induction 1 as [|[idx score] l [word Hword] _ (printed & Hrun & Hall)].
  - exists []. split; [reflexivity|constructor].
  - exists (Print_score score word :: printed). split.
    + cbn [for_each]. rewrite Hrun.
      unfold word_at in Hword. cbn [fst] in Hword.
      unfold print_score, index, getitem.
      destruct (text !! idx) as [w|]; [|done].
      rewrite bind_lift_Returned, Hword, bind_lift_Returned.
      reflexivity.
    + constructor; [|exact Hall]. by exists word.
Qed.

(** X11: a pass of the loop goes through when the ranker returns, every
    token of the probe is in the vocabulary, the label is there and the heat
    map is produced; what it logs is then, in this order, the calls of the
    ranker, the text, the label and the prediction, one line per entry of the
    ranking with the word of its position, the heat map and two empty
    lines; the next pass starts from the following method. *)
Lemma iteration_returned (dknn : DkNN) (model : Classifier)
  (test : list (ndarray * list Z)) (reverse_vocab : gmap Z string)
  (interp_method : string) (j : nat) (text : ndarray) (label : list Z)
  (y : Z) (s0 : Q) (scores : list Q) (log : list event)
  (ws : list string) (label0 : Z) (visual : list (string * Q)) :
  test !! (j / 3)%nat = Some (text, label) ->
  rank dknn model (next_method interp_method) text
  = (Returned (y, s0, scores), log) ->
  lookup_words reverse_vocab (data text) = Returned ws ->
  label !! 0%nat = Some label0 ->
  heatmap reverse_vocab (next_method interp_method) y s0 scores (data text)
  = Returned visual ->
  exists printed,
    Forall2 (fun it ev =>
               exists word,
                 word_at reverse_vocab (data text) (fst it) = Some word /\
                 ev = Print_score (snd it) word)
            (ranking scores) printed /\
    iteration dknn model test reverse_vocab interp_method j
    = (Returned (next_method interp_method),
       log ++ [Print_text ws; Print_label label0; Print_prediction y s0]
           ++ printed
           ++ [Write_visual visual; Print_empty_line; Print_empty_line]).
Proof.
  intros Htest Hrank Hws Hlabel Hheat.
  destruct (for_each_print_scores reverse_vocab (data text) (ranking scores))
    as (printed & Hprint & Hall).
  { apply heatmap_returned in Hheat as (words & Hwords & _).
    unfold ranking.
    rewrite (sorted_by_score_perm (enumerate scores)).
    apply Forall_lookup. intros i it Hi.
    destruct (Forall2_lookup_l _ _ _ _ _ Hwords Hi) as (word & _ & Hword).
    by exists word. }
  exists printed. split; [exact Hall|].
  unfold iteration. cbv zeta. unfold rank in Hrank.
  destruct (ranker dknn model (next_method interp_method)) as [e|r];
    [discriminate|].
  rewrite (bind_lift_Returned r) in Hrank.
  rewrite (bind_lift_Returned r).
  unfold index. rewrite Htest, bind_lift_Returned.
  rewrite Hrank, bind_Returned. cbn beta iota.
  rewrite Hws, bind_lift_Returned, bind_emit.
  rewrite Hlabel, bind_lift_Returned, !bind_emit.
  rewrite Hprint, bind_Returned.
  rewrite Hheat, bind_lift_Returned, !bind_emit.
  reflexivity.
Qed.

Lemma iteration_short_probe (dknn : DkNN) (model : Classifier)
  (test : list (ndarray * list Z)) (reverse_vocab : gmap Z string)
  (interp_method : string) (j : nat) (text : list Z) (label : list Z)
  (y : Z) (ys : list Z) (s0 : Q) (ss : list Q) :
  test !! (j / 3)%nat = Some (array1 text, label) ->
  (length text <= 1)%nat ->
  is_leave_one_out (next_method interp_method) = true ->
  predict dknn [array1 text] = (y :: ys, s0 :: ss) ->
  iteration dknn model test reverse_vocab interp_method j
  = (Raised AssertionError, [Call_predict [array1 text]]).
Proof.
  intros Htest Hlen Hm Hp. unfold iteration. cbv zeta.
  unfold ranker. rewrite Hm, bind_lift_Returned.
  unfold index. rewrite Htest, bind_lift_Returned.
  rewrite (leave_one_out_flatten_raises _ _ _ _ _ _ _ AssertionError Hp).
  - reflexivity.
  - rewrite flatten_array1.
    by apply Nat.ltb_ge in Hlen as ->.
Qed.

Lemma iterations_raise (dknn : DkNN) (model : Classifier)
  (test : list (ndarray * list Z)) (reverse_vocab : gmap Z string)
  (js1 : list nat) (j : nat) (js2 : list nat) (m m' : string)
  (e : exception) (log1 log2 : list event) :
  iterations dknn model test reverse_vocab js1 m = (Returned m', log1) ->
  iteration dknn model test reverse_vocab m' j = (Raised e, log2) ->
  iterations dknn model test reverse_vocab (js1 ++ j :: js2) m
  = (Raised e, log1 ++ log2).
Proof.
  revert m log1. induction js1 as [|a js1 IH]; intros m log1 H1 Hj.
  - cbn in H1. injection H1 as <- <-. cbn [app iterations].
    by rewrite Hj.
  - cbn [app iterations] in *.
    destruct (iteration dknn model test reverse_vocab m a)
      as [[e'|m1] l1]; cbn [bind] in *; [discriminate|].
    destruct (iterations dknn model test reverse_vocab js1 m1)
      as [r l] eqn:Hrest.
    injection H1 as -> <-.
    rewrite (IH m1 l Hrest Hj). by rewrite app_assoc.
Qed.

(** C8 (for the code as it is): when a pass of the loop reaches a probe of
    at most one token with a leave-one-out method, the AssertionError of
    [flatten] ends the whole run; after the call that predicted the label of
    that probe nothing more is logged, whatever passes were still to come. *)
Theorem probe_failure_ends_run (dknn : DkNN) (model : Classifier)
  (test : list (ndarray * list Z)) (reverse_vocab : gmap Z string)
  (js1 : list nat) (j : nat) (js2 : list nat) (m m' : string)
  (log1 : list event) (text : list Z) (label : list Z)
  (y : Z) (ys : list Z) (s0 : Q) (ss : list Q) :
  iterations dknn model test reverse_vocab js1 m = (Returned m', log1) ->
  test !! (j / 3)%nat = Some (array1 text, label) ->
  (length text <= 1)%nat ->
  is_leave_one_out (next_method m') = true ->
  predict dknn [array1 text] = (y :: ys, s0 :: ss) ->
  iterations dknn model test reverse_vocab (js1 ++ j :: js2) m
  = (Raised AssertionError, log1 ++ [Call_predict [array1 text]]).
Proof.
  intros H1 Htest Hlen Hm Hp.
  eapply iterations_raise; [exact H1|].
  by eapply iteration_short_probe.
Qed.

Lemma probe_failure_ends_run_witness :
  exists log1,
    iterations ex_dknn ex_model ex_test ex_vocab [0; 1; 2]%nat "dknn"
    = (Returned "dknn", log1) /\
    main_loop ex_dknn ex_model ex_test ex_vocab "dknn"
    = (Raised AssertionError, log1 ++ [Call_predict [array1 [7%Z]]]).
Proof.
  eexists. split; [vm_compute; reflexivity|].
  refine (probe_failure_ends_run ex_dknn ex_model ex_test ex_vocab
            [0; 1; 2]%nat 3%nat [4; 5; 6; 7; 8]%nat "dknn" "dknn" _
            [7%Z] [0%Z] 1%Z [] 1%Q [] _ eq_refl _ eq_refl eq_refl).
  - vm_compute. reflexivity.
  - cbn. lia.
Defined.

(** C8 does not hold: in a batch of three probes whose second has one
    token, the run ends with AssertionError at the second probe and the third
    probe, [4; 5], is never processed. *)
Lemma short_probe_aborts_batch :
  fst (main_loop ex_dknn ex_model ex_test ex_vocab "dknn")
  = Raised AssertionError /\
  ~ sound_probes_processed ex_test
      (snd (main_loop ex_dknn ex_model ex_test ex_vocab "dknn")).
Proof.
  split; [vm_compute; reflexivity|].
  intros H.
  destruct (H (array1 [4; 5]%Z) [1%Z]) as (ev & Hev & Hon).
  - unfold ex_test. do 2 right. left.
  - eexists. vm_compute. reflexivity.
  - vm_compute in Hev.
    walk_log Hev ltac:(cbn in Hon;
                       try (apply list_elem_of_singleton in Hon;
                            discriminate);
                       try contradiction).
Qed.

(** ** The build phase and the queries after it *)

Section BuildFacts.

Variable deep_knn_predict : list ndarray -> list vector * list vector.
Variable hash_vector : vector -> string.
Variable unitvec : vector -> vector.
Variable query_keys : vector -> list string.
Variable distance : vector -> vector -> Q.

(** The forward pass gives one row of class scores and one activation row
    per example of the batch. *)
Hypothesis rows_aligned :
  forall xs, length (fst (deep_knn_predict xs))
             = length (snd (deep_knn_predict xs)).

Lemma predicted_labels_length (output : list vector) (ys : list Z) :
  predicted_labels output = Returned ys -> length ys = length output.
Proof.
  revert ys. induction output as [|p output IH]; intros ys H; cbn in H.
  - by injection H as <-.
  - destruct (argmax p) as [e|y]; cbn in H; [done|].
    destruct (predicted_labels output) as [e|ys'];
      cbn in H; [done|].
    injection H as <-. cbn. f_equal. by apply IH.
Qed.

Lemma collect_aligned (train_iter : list (list (ndarray * list Z)))
  (acts acts' : list vector) (labels labels' : list Z) :
  collect deep_knn_predict train_iter acts labels = Returned (acts', labels')
  -> length acts = length labels -> length acts' = length labels'.
Proof.
  revert acts labels.
  induction train_iter as [|b train_iter IH]; intros acts labels H Hlen.
  - cbn in H. by injection H as <- <-.
  - cbn [collect] in H.
    pose proof (rows_aligned (map fst b)) as Hrows.
    destruct (deep_knn_predict (map fst b)) as [output activations].
    cbn [fst snd] in Hrows.
    destruct (predicted_labels output) as [e|ys] eqn:Hys;
      cbn [obind] in H; [done|].
    apply predicted_labels_length in Hys.
    apply IH in H; [done|]. rewrite !length_app. lia.
Qed.

Lemma store_all_storage (e : Engine) (items : list (nat * vector)) :
  storage (store_all hash_vector unitvec e items)
  = storage e
    ++ map (fun it => (hash_vector (snd it), (unitvec (snd it), fst it)))
           items.
Proof.
  revert e. induction items as [|[ind element] items IH]; intros e.
  - cbn. by rewrite app_nil_r.
  - change (store_all hash_vector unitvec e ((ind, element) :: items))
      with (store_all hash_vector unitvec
                      (store_vector hash_vector unitvec e element ind)
                      items).
    rewrite IH. cbn [store_vector storage map fst snd].
    by rewrite <- app_assoc.
Qed.

Lemma store_all_dim (e : Engine) (items : list (nat * vector)) :
  dim (store_all hash_vector unitvec e items) = dim e.
Proof.
  revert e. induction items as [|[ind element] items IH]; intros e; [done|].
  change (store_all hash_vector unitvec e ((ind, element) :: items))
    with (store_all hash_vector unitvec
                    (store_vector hash_vector unitvec e element ind) items).
  by rewrite IH.
Qed.

Lemma build_stored_ids (train_iter : list (list (ndarray * list Z)))
  (activation_tree : Engine) (label_list : list Z) :
  build deep_knn_predict hash_vector unitvec train_iter
  = Returned (activation_tree, label_list) ->
  stored_ids activation_tree = seq 0 (length label_list).
Proof.
  unfold build. intros H.
  destruct (collect deep_knn_predict train_iter [] [])
    as [e|[acts labels]] eqn:Hc; cbn [obind] in H; [done|].
  destruct (index acts 0) as [e|first]; cbn [obind] in H; [done|].
  injection H as <- <-.
  apply collect_aligned in Hc; [|done].
  unfold stored_ids. rewrite store_all_storage. cbn [storage app].
  rewrite map_map. cbn [snd].
  rewrite <- Hc. apply enumerate_ids.
Qed.

Lemma insert_by_distance_perm (c : vector * nat * Q)
  (l : list (vector * nat * Q)) :
  Permutation (insert_by_distance c l) (c :: l).
Proof.
  induction l as [|c' l IH]; cbn; [done|].
  destruct (Qle_bool (snd c) (snd c')); [done|].
  rewrite IH. apply perm_swap.
Qed.

Lemma nearest_filter_subseteq (l : list (vector * nat * Q)) :
  nearest_filter l ⊆ l.
Proof.
  unfold nearest_filter. intros c Hc.
  apply subseteq_take in Hc.
  assert (Hperm : Permutation (foldr insert_by_distance [] l) l).
  { clear. induction l as [|c l IH]; cbn; [done|].
    rewrite insert_by_distance_perm. by constructor. }
  by rewrite Hperm in Hc.
Qed.

Lemma dict_set_values (unique_dict : list (nat * (vector * nat))) (k : nat)
  (v x : vector * nat) :
  x ∈ map snd (dict_set unique_dict k v) ->
  x = v \/ x ∈ map snd unique_dict.
Proof.
  induction unique_dict as [|[k' v'] d IH]; cbn.
  - intros H. apply list_elem_of_singleton in H. by left.
  - destruct (k =? k')%nat; cbn; intros H;
      apply elem_of_cons in H as [-> | H].
    + by left.
    + right. by right.
    + right. by left.
    + destruct (IH H) as [-> | H']; [by left|right; by right].
Qed.

Lemma unique_filter_subseteq (l : list (vector * nat)) :
  unique_filter l ⊆ l.
Proof.
  unfold unique_filter.
  assert (Hgen : forall d x,
            x ∈ map snd (fold_left
                           (fun unique_dict v =>
                              dict_set unique_dict (snd v) v) l d) ->
            x ∈ map snd d \/ x ∈ l).
  { induction l as [|v l IH]; intros d x H; cbn in H; [by left|].
    destruct (IH _ _ H) as [H' | H']; [|right; by right].
    destruct (dict_set_values _ _ _ _ H') as [-> | H''];
      [right; by left|by left]. }
  intros x Hx. destruct (Hgen [] x Hx) as [H | H]; [inversion H|done].
Qed.

Lemma bucket_stored (e : Engine) (k : string) (v : vector) (d : nat) :
  (v, d) ∈ bucket e k -> d ∈ stored_ids e.
Proof.
  unfold bucket, stored_ids. intros H.
  apply list_elem_of_fmap in H as ([k' [v' d']] & Heq & Hin).
  cbn in Heq. injection Heq as <- <-.
  apply list_elem_of_filter in Hin as [_ Hin].
  apply list_elem_of_fmap. by exists (k', (v, d)).
Qed.

Lemma training_indices_stored (e : Engine) (activation : vector) (id : nat) :
  id ∈ training_indices query_keys distance e activation ->
  id ∈ stored_ids e.
Proof.
  unfold training_indices, neighbours. intros H.
  apply list_elem_of_fmap in H as ([[v d] q] & -> & Hnn). cbn [fst snd].
  apply nearest_filter_subseteq in Hnn.
  apply list_elem_of_fmap in Hnn as ([v' d'] & Heq & Hc).
  injection Heq as <- <- _.
  apply unique_filter_subseteq in Hc.
  apply list_elem_of_In, in_flat_map in Hc as (k & _ & Hb).
  apply list_elem_of_In in Hb. by eapply bucket_stored.
Qed.

Lemma pred_labels_returns (label_list : list Z) (indices : list nat) :
  (forall id, id ∈ indices -> (id < length label_list)%nat) ->
  exists labels, pred_labels label_list indices = Returned labels /\
                 length labels = length indices.
Proof.
  induction indices as [|id indices IH]; intros Hall.
  - by exists [].
  - destruct IH as (labels & Hl & Hlen).
    { intros id' Hid'. apply Hall. by right. }
    destruct (lookup_lt_is_Some_2 label_list id) as [y Hy].
    { apply Hall. by left. }
    exists (y :: labels). cbn [pred_labels]. unfold index.
    rewrite Hy. cbn [obind]. rewrite Hl. cbn. by rewrite Hlen.
Qed.

(** C10: after the build, the identifiers stored in the engine are the
    positions 0, 1, ... of the label list, each once; every identifier a
    query returns is one of them, and reading the label of every returned
    neighbour succeeds. *)
Theorem neighbour_ids_inserted_and_labelled
  (train_iter : list (list (ndarray * list Z)))
  (activation_tree : Engine) (label_list : list Z) :
  build deep_knn_predict hash_vector unitvec train_iter
  = Returned (activation_tree, label_list) ->
  stored_ids activation_tree = seq 0 (length label_list) /\
  NoDup (stored_ids activation_tree) /\
  forall activation,
    (forall id,
       id ∈ training_indices query_keys distance activation_tree activation ->
       id ∈ stored_ids activation_tree /\
       exists y, label_list !! id = Some y) /\
    exists labels,
      pred_labels label_list
        (training_indices query_keys distance activation_tree activation)
      = Returned labels /\
      length labels
      = length (training_indices query_keys distance activation_tree
                                 activation).
Proof.
  intros H. pose proof (build_stored_ids _ _ _ H) as Hids.
  assert (Hin : forall activation id,
            id ∈ training_indices query_keys distance activation_tree
                                  activation ->
            (id < length label_list)%nat).
  { intros activation id Hid. apply training_indices_stored in Hid.
    rewrite Hids in Hid. apply elem_of_seq in Hid. lia. }
  split; [exact Hids|]. split; [rewrite Hids; apply NoDup_seq|].
  intros activation. split.
  - intros id Hid. split; [exact (training_indices_stored _ _ _ Hid)|].
    apply lookup_lt_is_Some_2. by eapply Hin.
  - apply pred_labels_returns. intros id Hid. exact (Hin activation id Hid).
Qed.

End BuildFacts.

Lemma neighbour_ids_inserted_and_labelled_witness :
  exists activation_tree label_list,
    build ex_deep_knn_predict ex_hash_vector ex_unitvec ex_train_iter
    = Returned (activation_tree, label_list) /\
    stored_ids activation_tree = [0; 1]%nat /\
    label_list = [1; 1]%Z /\
    forall activation,
      exists labels,
        pred_labels label_list
          (training_indices ex_query_keys ex_distance activation_tree
                            activation)
        = Returned labels /\
        length labels
        = length (training_indices ex_query_keys ex_distance activation_tree
                                   activation).
Proof.
  eexists _, _. split; [vm_compute; reflexivity|].
  split; [reflexivity|]. split; [reflexivity|].
  intros activation.
  refine (proj2 (proj2 (proj2
            (neighbour_ids_inserted_and_labelled ex_deep_knn_predict
               ex_hash_vector ex_unitvec ex_query_keys ex_distance _
               ex_train_iter _ _ _)) activation)).
  - intros xs. cbn. by rewrite !length_map.
  - vm_compute. reflexivity.
Defined.

(** ** The build phase on an empty training set *)

Lemma SerialIterator_next_empty (batch_size : nat) (order : list nat) :
  SerialIterator_next (SerialIterator_reset [] batch_size order)
  = Raised ZeroDivisionError.
Proof. reflexivity. Qed.

(** C9 (for the code as it is): with no training example the build phase
    fails, whatever the batch size, the order and the model are: the first
    request for a batch raises ZeroDivisionError inside the iterator, so the
    loop of lines 145-162 raises it before any forward pass, and the build
    phase raises it before any engine exists. *)
Theorem build_empty_raises_ZeroDivisionError
  (deep_knn_predict : list ndarray -> list vector * list vector)
  (hash_vector : vector -> string) (unitvec : vector -> vector)
  (fuel batchsize : nat) (order : list nat)
  (layers_act_list : list vector) (label_list : list Z) :
  SerialIterator_next (SerialIterator_reset [] batchsize order)
  = Raised ZeroDivisionError /\
  collect_iter deep_knn_predict (S fuel)
               (SerialIterator_reset [] batchsize order)
               layers_act_list label_list
  = Some (Raised ZeroDivisionError) /\
  build_from deep_knn_predict hash_vector unitvec (S fuel) [] batchsize order
  = Some (Raised ZeroDivisionError).
Proof.
  split; [apply SerialIterator_next_empty|].
  split.
  - cbn [collect_iter]. by rewrite SerialIterator_next_empty.
  - unfold build_from. cbn [collect_iter].
    by rewrite SerialIterator_next_empty.
Qed.

(** C9 does not hold for the name of the error: the exception of the build
    phase on an empty training set is not called EmptyTrainingSetError. *)
Lemma build_empty_not_named_error :
  ~ exists e,
      build_from ex_deep_knn_predict ex_hash_vector ex_unitvec 1 [] 64 []
      = Some (Raised e) /\
      exception_name e = "EmptyTrainingSetError".
Proof.
  intros (e & He & Hname). vm_compute in He. injection He as <-.
  discriminate.
Qed.

(** ** The build phase on the batches the iterator yields *)

Lemma collect_iter_batches
  (deep_knn_predict : list ndarray -> list vector * list vector)
  (fuel : nat) (train_iter : SerialIterator)
  (batches : list (list (ndarray * list Z)))
  (layers_act_list : list vector) (label_list : list Z) :
  drain fuel train_iter = Some (Returned batches) ->
  collect_iter deep_knn_predict fuel train_iter layers_act_list label_list
  = Some (collect deep_knn_predict batches layers_act_list label_list).
Proof.
  revert train_iter batches layers_act_list label_list.
  induction fuel as [|fuel IH];
    intros train_iter batches acts labels H; [done|].
  cbn [drain collect_iter] in *.
  destruct (SerialIterator_next train_iter) as [e|[[b it']|]]; [done| |].
  - destruct (drain fuel it') as [[e|bs]|] eqn:Hd; [done| |done].
    injection H as <-. cbn [collect].
    destruct (deep_knn_predict (map fst b)) as [output activations].
    destruct (predicted_labels output) as [e|ys]; [done|].
    cbn [obind]. by apply IH.
  - by injection H as <-.
Qed.

Lemma build_from_batches
  (deep_knn_predict : list ndarray -> list vector * list vector)
  (hash_vector : vector -> string) (unitvec : vector -> vector)
  (fuel : nat) (train : list (ndarray * list Z)) (batchsize : nat)
  (order : list nat) (batches : list (list (ndarray * list Z))) :
  drain fuel (SerialIterator_reset train batchsize order)
  = Some (Returned batches) ->
  build_from deep_knn_predict hash_vector unitvec fuel train batchsize order
  = Some (build deep_knn_predict hash_vector unitvec batches).
Proof.
  intros H. unfold build_from, build.
  by rewrite (collect_iter_batches deep_knn_predict _ _ _ [] [] H).
Qed.

Lemma build_from_ex_train :
  drain 2 (SerialIterator_reset (concat ex_train_iter) 64 [0; 1]%nat)
  = Some (Returned ex_train_iter) /\
  build_from ex_deep_knn_predict ex_hash_vector ex_unitvec 2
             (concat ex_train_iter) 64 [0; 1]%nat
  = Some (build ex_deep_knn_predict ex_hash_vector ex_unitvec ex_train_iter).
Proof.
  assert (H : drain 2 (SerialIterator_reset (concat ex_train_iter) 64
                                            [0; 1]%nat)
              = Some (Returned ex_train_iter))
    by (vm_compute; reflexivity).
  split; [exact H|]. by apply build_from_batches.
Qed.

(** ** One engine for all the layers *)

(** C7 does not hold of the code: for a model with two designated layers and
    a training set of two examples, the build phase makes a single engine; it
    holds one row per example, under the identifiers 0 and 1, and each row is
    the activations of the two layers joined (normalized as one vector by
    the engine, whatever the normalization is). *)
Example build_single_engine_for_two_layers (unitvec : vector -> vector) :
  build ex_deep_knn_predict ex_hash_vector unitvec ex_train_iter
  = Returned
      ({| dim := 2;
          storage :=
            [("rbpt_0", (unitvec (ex_layer1 (array1 [1; 2; 3]%Z)
                                    ++ ex_layer2 (array1 [1; 2; 3]%Z)),
                         0%nat));
             ("rbpt_1", (unitvec (ex_layer1 (array1 [4; 5]%Z)
                                    ++ ex_layer2 (array1 [4; 5]%Z)),
                         1%nat))] |},
       [1; 1]%Z).
Proof. reflexivity. Qed.

(** ** More on the normalization: the centre and the order *)

Lemma scaled_value_negative (tp tn s : Q) :
  (0 < tn)%Q -> (s < 0)%Q ->
  (scaled_value tp tn s == s * / tn * (1 # 2))%Q.
Proof.
  intros Hn Hs. unfold scaled_value.
  rewrite (proj2 (Qltb_lt s 0) Hs). reflexivity.
Qed.

Lemma scaled_value_nonnegative (tp tn s : Q) :
  (0 < tp)%Q -> (0 <= s)%Q ->
  (scaled_value tp tn s == s * / tp * (1 # 2))%Q.
Proof.
  intros Hp Hs. unfold scaled_value.
  rewrite (proj2 (Qltb_ge s 0) Hs). reflexivity.
Qed.

Lemma normalize_lookup (l vs : list Q) (i : nat) (s : Q) :
  normalize l = Returned vs -> l !! i = Some s ->
  vs !! i = Some ((1 # 2) + scaled_value (fst (totals l)) (snd (totals l)) s)%Q.
Proof.
  intros H Hs. rewrite normalize_returns in H. injection H as <-.
  unfold center. by rewrite !list_lookup_fmap, Hs.
Qed.

(** X1: a raw importance of zero is drawn at the centre of the colour map,
    exactly 1/2, whatever the other scores are; so a probe whose raw
    importances are all zero gets 1/2 everywhere (the case the constant 1e-6
    is there for). *)
Theorem normalize_zero_at_centre (l vs : list Q) (i : nat) (s : Q) :
  normalize l = Returned vs ->
  l !! i = Some s ->
  (s == 0)%Q ->
  exists v, vs !! i = Some v /\ (v == 1 # 2)%Q.
Proof.
  intros H Hs Hzero. eexists. split; [by eapply normalize_lookup|].
  destruct (totals_positive l) as (Hp & _ & _).
  rewrite scaled_value_nonnegative by (done || lra).
  rewrite Hzero. lra.
Qed.

Lemma normalize_zero_at_centre_witness :
  exists vs,
    normalize [0; 0; 0]%Q = Returned vs /\
    Forall (fun v => (v == 1 # 2)%Q) vs.
Proof.
  eexists. split; [vm_compute; reflexivity|].
  apply Forall_lookup. intros i v Hv.
  assert (Hs : exists s, [0; 0; 0]%Q !! i = Some s /\ (s == 0)%Q).
  { destruct i as [|[|[|i]]]; try discriminate; by exists 0%Q. }
  destruct Hs as (s & Hs & Hzero).
  destruct (normalize_zero_at_centre [0; 0; 0]%Q _ i s
              ltac:(vm_compute; reflexivity) Hs Hzero) as (v' & Hv' & Heq).
  rewrite Hv in Hv'. by injection Hv' as <-.
Defined.

(** X2: the normalization never reverses the order of the sign-adjusted
    raw importances: a raw importance that is not greater gets a value that
    is not greater, on the same side of the centre or across it; so equal
    raw importances get equal values. *)
Theorem normalize_keeps_order (l vs : list Q) (i j : nat) (s t v w : Q) :
  normalize l = Returned vs ->
  l !! i = Some s -> l !! j = Some t ->
  vs !! i = Some v -> vs !! j = Some w ->
  ((s <= t)%Q -> (v <= w)%Q) /\ ((s == t)%Q -> (v == w)%Q).
Proof.
  intros H Hs Ht Hv Hw.
  rewrite (normalize_lookup _ _ _ _ H Hs) in Hv. injection Hv as <-.
  rewrite (normalize_lookup _ _ _ _ H Ht) in Hw. injection Hw as <-.
  destruct (totals_positive l) as (Hp & Hn & _).
  set (tp := fst (totals l)) in *. set (tn := snd (totals l)) in *.
  assert (Hip : (0 < / tp)%Q) by (by apply Qinv_lt_0_compat).
  assert (Hin : (0 < / tn)%Q) by (by apply Qinv_lt_0_compat).
  destruct (Qlt_le_dec s 0) as [Hs0|Hs0], (Qlt_le_dec t 0) as [Ht0|Ht0].
  - rewrite !scaled_value_negative by done. split; intros Hst.
    + assert (s * / tn <= t * / tn)%Q by (apply Qmult_le_compat_r; lra).
      lra.
    + rewrite Hst. lra.
  - rewrite (scaled_value_negative tp tn s),
      (scaled_value_nonnegative tp tn t) by done.
    assert (s * / tn < 0 * / tn)%Q by (apply Qmult_lt_r; done).
    assert (0 <= t * / tp)%Q by (apply Qmult_le_0_compat; lra).
    split; intros Hst; lra.
  - rewrite (scaled_value_negative tp tn t),
      (scaled_value_nonnegative tp tn s) by done.
    split; intros Hst; lra.
  - rewrite !scaled_value_nonnegative by done. split; intros Hst.
    + assert (s * / tp <= t * / tp)%Q by (apply Qmult_le_compat_r; lra).
      lra.
    + rewrite Hst. lra.
Qed.

Lemma normalize_keeps_order_witness :
  exists vs v w,
    normalize [(-1 # 2); (1 # 3); 0; (-1 # 4)]%Q = Returned vs /\
    vs !! 0%nat = Some v /\ vs !! 3%nat = Some w /\ (v <= w)%Q.
Proof.
  eexists _, _, _. split; [vm_compute; reflexivity|].
  split; [reflexivity|]. split; [reflexivity|].
  eapply (normalize_keeps_order [(-1 # 2); (1 # 3); 0; (-1 # 4)]%Q _ 0 3
            (-1 # 2) (-1 # 4)).
  - vm_compute. reflexivity.
  - reflexivity.
  - reflexivity.
  - reflexivity.
  - reflexivity.
  - vm_compute. discriminate.
Defined.

(** ** When the heat map of a probe can be drawn *)

Lemma Forall_is_Some_Forall2 {A B} (g : A -> option B) (l : list A) :
  Forall (fun a => is_Some (g a)) l ->
  exists k, Forall2 (fun a b => g a = Some b) l k.
Proof.
  induction 1 as [|a l [b Hb] _ [k Hk]].
  - exists []. constructor.
  - exists (b :: k). by constructor.
Qed.

Lemma enumerate_word_at (reverse_vocab : gmap Z string) (text : list Z)
  (scores : list Q) :
  (forall i, (i < length scores)%nat ->
             is_Some (word_at reverse_vocab text i)) ->
  Forall (fun it => is_Some (word_at reverse_vocab text (fst it)))
         (enumerate scores).
Proof.
  intros H. apply Forall_lookup. intros i it Hi.
  rewrite enumerate_lookup in Hi.
  destruct (scores !! i) as [s|] eqn:Hs; [|done].
  injection Hi as <-. apply H. by eapply lookup_lt_Some.
Qed.

Lemma raw_loop_raises (interp_method : string) (original_score : Q)
  (reverse_vocab : gmap Z string) (text : list Z)
  (items1 items2 : list (nat * Q)) (idx : nat) (score : Q)
  (ns : list Q) (ws : list string) :
  Forall (fun it => is_Some (word_at reverse_vocab text (fst it))) items1 ->
  word_at reverse_vocab text idx = None ->
  raw_loop interp_method original_score reverse_vocab text
           (items1 ++ (idx, score) :: items2) ns ws
  = Raised (if decide (idx < length text)%nat then KeyError else IndexError).
Proof.
  intros Hall Hnone. revert ns ws.
  induction Hall as [|[idx' score'] items1 [word Hword] _ IH]; intros ns ws.
  - cbn [app raw_loop]. unfold word_at in Hnone. unfold index, getitem.
    destruct (text !! idx) as [w|] eqn:Hw; cbn [obind].
    + rewrite Hnone. cbn [obind].
      apply lookup_lt_Some in Hw. by rewrite decide_True.
    + apply lookup_ge_None in Hw. rewrite decide_False; [done|lia].
  - cbn [app raw_loop]. unfold word_at in Hword. cbn [fst] in Hword.
    unfold index, getitem.
    destruct (text !! idx') as [w|]; [|done]. cbn [obind].
    rewrite Hword. cbn [obind]. apply IH.
Qed.

(** X3: the heat map of a probe is produced exactly when every position
    that has a score also has a token and that token is in the vocabulary.
    Otherwise it raises at the first position that fails: KeyError when the
    token is missing from the vocabulary, IndexError when there are more
    scores than tokens. The normalization itself never fails. *)
Theorem heatmap_returns_iff (reverse_vocab : gmap Z string)
  (interp_method : string) (prediction : Z) (original_score : Q)
  (scores : list Q) (text : list Z) :
  ((exists visual,
      heatmap reverse_vocab interp_method prediction original_score scores
              text = Returned visual)
   <-> forall i, (i < length scores)%nat ->
                 is_Some (word_at reverse_vocab text i)) /\
  forall i,
    (i < length scores)%nat ->
    (forall j, (j < i)%nat -> is_Some (word_at reverse_vocab text j)) ->
    word_at reverse_vocab text i = None ->
    heatmap reverse_vocab interp_method prediction original_score scores text
    = Raised (if decide (i < length text)%nat then KeyError else IndexError).
Proof.
  split; [split|].
  - intros [visual H] i Hi.
    apply heatmap_returned in H as (words & Hall & _).
    destruct (lookup_lt_is_Some_2 scores i Hi) as [s Hs].
    assert (Hit : enumerate scores !! i = Some (i, s))
      by (by rewrite enumerate_lookup, Hs).
    destruct (Forall2_lookup_l _ _ _ _ _ Hall Hit) as (word & _ & Hword).
    by exists word.
  - intros H.
    destruct (Forall_is_Some_Forall2 _ _ (enumerate_word_at _ _ _ H))
      as [words Hwords].
    unfold heatmap.
    rewrite (raw_loop_returns _ _ _ _ _ [] [] words Hwords).
    cbn [obind app]. rewrite normalize_returns. cbn [obind]. eauto.
  - intros i Hi Hbefore Hnone.
    destruct (lookup_lt_is_Some_2 scores i Hi) as [s Hs].
    assert (Hit : enumerate scores !! i = Some (i, s))
      by (by rewrite enumerate_lookup, Hs).
    unfold heatmap.
    rewrite <- (take_drop_middle _ _ _ Hit).
    rewrite raw_loop_raises; [done| |done].
    apply Forall_lookup. intros k it Hk.
    apply lookup_take_Some in Hk as [Hk Hlt].
    rewrite enumerate_lookup in Hk.
    destruct (scores !! k); [|done]. injection Hk as <-.
    by apply Hbefore.
Qed.

Lemma heatmap_returns_iff_witness :
  (exists visual,
     heatmap ex_vocab "grad" 0 1 [(1 # 7); (2 # 7)]%Q [1; 2]%Z
     = Returned visual) /\
  heatmap ex_vocab "grad" 0 1 [(1 # 7); (2 # 7)]%Q [1; 6]%Z
  = Raised KeyError /\
  heatmap ex_vocab "grad" 0 1 [(1 # 7); (2 # 7)]%Q [1%Z]
  = Raised IndexError.
Proof.
  split; [|split].
  - apply (proj1 (heatmap_returns_iff ex_vocab "grad" 0 1
                    [(1 # 7); (2 # 7)]%Q [1; 2]%Z)).
    intros [|[|i]] Hi; [by eexists|by eexists|cbn in Hi; lia].
  - apply (proj2 (heatmap_returns_iff ex_vocab "grad" 0 1
                    [(1 # 7); (2 # 7)]%Q [1; 6]%Z) 1%nat).
    + cbn. lia.
    + intros [|j] Hj; [by eexists|lia].
    + reflexivity.
  - apply (proj2 (heatmap_returns_iff ex_vocab "grad" 0 1
                    [(1 # 7); (2 # 7)]%Q [1%Z]) 1%nat).
    + cbn. lia.
    + intros [|j] Hj; [by eexists|lia].
    + reflexivity.
Defined.

(** ** Ties in the ranking *)

Lemma StronglySorted_lookup_lt {A} (R : A -> A -> Prop) (l : list A)
  (a b : nat) (x y : A) :
  StronglySorted R l -> (a < b)%nat ->
  l !! a = Some x -> l !! b = Some y -> R x y.
Proof.
  intros Hl. revert a b. induction Hl as [|z l Hl IH Hz]; intros a b Hab Ha Hb.
  - done.
  - destruct b as [|b]; [lia|]. destruct a as [|a].
    + injection Ha as <-. rewrite Forall_lookup in Hz. by eapply Hz.
    + eapply (IH a b); [lia|done|done].
Qed.

Lemma rank_before_le_lt (p q : nat * Q) :
  (snd p <= snd q)%Q -> (fst p < fst q)%nat -> rank_before p q.
Proof.
  intros Hle Hlt. destruct (Qlt_le_dec (snd p) (snd q)) as [H|H].
  - by left.
  - right. split; [by apply Qle_antisym|done].
Qed.

Lemma rank_before_score_le (p q : nat * Q) :
  rank_before p q -> (snd p <= snd q)%Q.
Proof. intros [H | [H _]]; lra. Qed.

Lemma insert_by_score_stable (p : nat * Q) (l : list (nat * Q)) :
  StronglySorted rank_before l ->
  Forall (position_lt p) l ->
  StronglySorted rank_before (insert_by_score p l).
Proof.
  induction 1 as [|q l Hl IH Hq]; intros Hpos; cbn.
  - repeat constructor.
  - apply Forall_cons in Hpos as [Hpq Hpos].
    destruct (Qle_bool (snd p) (snd q)) eqn:E.
    + apply Qle_bool_iff in E. constructor; [by constructor|].
      constructor; [by apply rank_before_le_lt|].
      rewrite Forall_forall in Hq, Hpos |- *. intros r Hr.
      apply rank_before_le_lt; [|by apply Hpos].
      pose proof (rank_before_score_le _ _ (Hq r Hr)). lra.
    + assert (Hqp : (snd q < snd p)%Q).
      { apply Qnot_le_lt. intros H. apply Qle_bool_iff in H. congruence. }
      constructor; [by apply IH|].
      rewrite insert_by_score_perm. constructor; [by left|done].
Qed.

Lemma sorted_by_score_stable (l : list (nat * Q)) :
  StronglySorted position_lt l ->
  StronglySorted rank_before (sorted_by_score l).
Proof.
  induction 1 as [|p l Hl IH Hp]; cbn; [constructor|].
  apply insert_by_score_stable; [exact IH|].
  by rewrite sorted_by_score_perm.
Qed.

Lemma enumerate_from_sorted (l : list Q) (k : nat) :
  StronglySorted position_lt (zip (seq k (length l)) l).
Proof.
  revert k. induction l as [|a l IH]; intros k; cbn; [constructor|].
  constructor; [apply IH|].
  apply Forall_forall. intros [j b] Hq. unfold position_lt. cbn.
  apply elem_of_zip_l, elem_of_seq in Hq. lia.
Qed.

(** X4: the ranking is stable. Of two entries of the ranking, the earlier
    one has the strictly smaller score, or an equal score and the smaller
    position: positions that tie on the score stay in the order of the
    probe. *)
Theorem ranking_ties_by_position (scores : list Q) (a b i j : nat)
  (s t : Q) :
  (a < b)%nat ->
  ranking scores !! a = Some (i, s) ->
  ranking scores !! b = Some (j, t) ->
  (s < t)%Q \/ ((s == t)%Q /\ (i < j)%nat).
Proof.
  intros Hab Ha Hb.
  exact (StronglySorted_lookup_lt rank_before _ a b (i, s) (j, t)
           (sorted_by_score_stable _ (enumerate_from_sorted scores 0))
           Hab Ha Hb).
Qed.

Lemma ranking_ties_by_position_witness :
  ranking [(2 # 10); (1 # 10); (1 # 10)]%Q !! 0%nat
  = Some (1%nat, (1 # 10)%Q) /\
  ranking [(2 # 10); (1 # 10); (1 # 10)]%Q !! 1%nat
  = Some (2%nat, (1 # 10)%Q) /\
  ((1 # 10 < 1 # 10)%Q \/ ((1 # 10 == 1 # 10)%Q /\ (1 < 2)%nat)).
Proof.
  split; [reflexivity|]. split; [reflexivity|].
  apply (ranking_ties_by_position [(2 # 10); (1 # 10); (1 # 10)]%Q 0 1);
    [lia|reflexivity|reflexivity].
Defined.

(** ** colorize and the printed text *)

(** X5: [colorize] gives one entry per pair of a word and a colour, as many
    as the shorter of the two lists, in their order; the colour is kept, the
    word is kept unless it is "<unk>", which is replaced; no entry holds the
    word "<unk>". *)
Theorem colorize_entries (words : list string) (color_array : list Q) :
  length (colorize words color_array)
  = Nat.min (length words) (length color_array) /\
  (forall i word color,
     words !! i = Some word -> color_array !! i = Some color ->
     colorize words color_array !! i
     = Some (if decide (word = "<unk>") then "&ltunk&gt" else word, color)) /\
  forall entry, entry ∈ colorize words color_array -> fst entry <> "<unk>".
Proof.
  unfold colorize. split; [|split].
  - by rewrite length_map, length_zip_with.
  - intros i word color Hw Hc.
    rewrite list_lookup_fmap, lookup_zip_with, Hw. cbn. rewrite Hc. cbn.
    destruct (String.eqb_spec word "<unk>"); by case_decide.
  - intros entry Hin.
    apply list_elem_of_fmap in Hin as ([word color] & -> & _). cbn.
    destruct (String.eqb_spec word "<unk>"); [discriminate|done].
Qed.

Lemma colorize_entries_witness :
  ["good"; "<unk>"] !! 1%nat = Some "<unk>" /\
  [1 # 4; 3 # 4]%Q !! 1%nat = Some (3 # 4)%Q /\
  colorize ["good"; "<unk>"] [1 # 4; 3 # 4]%Q !! 1%nat
  = Some ("&ltunk&gt", (3 # 4)%Q).
Proof.
  refine (conj eq_refl (conj eq_refl _)).
  exact (proj1 (proj2 (colorize_entries ["good"; "<unk>"] [1 # 4; 3 # 4]%Q))
           1%nat "<unk>" (3 # 4)%Q eq_refl eq_refl).
Defined.

(** X6: printing the text of a probe gives one word per token, the word the
    vocabulary holds for it; it fails exactly when some token of the probe is
    missing from the vocabulary, and then with KeyError. *)
Theorem lookup_words_spec (reverse_vocab : gmap Z string) (text : list Z) :
  (forall ws,
     lookup_words reverse_vocab text = Returned ws
     <-> Forall2 (fun w word => reverse_vocab !! w = Some word) text ws) /\
  (forall e,
     lookup_words reverse_vocab text = Raised e
     <-> e = KeyError /\ exists w, w ∈ text /\ reverse_vocab !! w = None).
Proof.
  induction text as [|w text [IHr IHe]].
  - split.
    + intros ws. cbn. split.
      * intros [= <-]. constructor.
      * intros H. by inversion H.
    + intros e. cbn. split; [done|].
      intros (_ & w & Hw & _). inversion Hw.
  - cbn [lookup_words]. unfold getitem.
    destruct (reverse_vocab !! w) as [word|] eqn:Hword; cbn [obind].
    + destruct (lookup_words reverse_vocab text) as [e'|ws'] eqn:Hrest;
        cbn [obind].
      * split.
        -- intros ws. split; [done|]. intros H.
           inversion H as [|? ? ? ws'' _ Hall]; subst.
           apply IHr in Hall. discriminate.
        -- intros e. split.
           ++ intros [= <-]. destruct (proj1 (IHe e') eq_refl)
                as (-> & w' & Hw' & Hnone).
              split; [done|]. exists w'. split; [by right|done].
           ++ intros (-> & w' & Hw' & Hnone). f_equal.
              by destruct (proj1 (IHe e') eq_refl) as (-> & _).
      * split.
        -- intros ws. split.
           ++ intros [= <-]. constructor; [done|]. by apply IHr.
           ++ intros H. inversion H as [|? word' ? ws'' Hw' Hall]; subst.
              apply IHr in Hall. injection Hall as <-.
              rewrite Hword in Hw'. by injection Hw' as <-.
        -- intros e. split; [done|].
           intros (-> & w' & Hw' & Hnone).
           apply elem_of_cons in Hw' as [-> | Hw']; [congruence|].
           pose proof (proj2 (IHe KeyError)
                         (conj eq_refl (ex_intro _ w' (conj Hw' Hnone))))
             as H.
           discriminate.
    + split.
      * intros ws. split; [done|]. intros H.
        inversion H as [|? ? ? ? Hw' _]; subst. congruence.
      * intros e. split.
        -- intros [= <-]. split; [done|]. exists w. split; [by left|done].
        -- by intros (-> & _).
Qed.

Lemma lookup_words_spec_witness :
  Forall2 (fun w word => ex_vocab !! w = Some word) [1; 3]%Z ["a"; "<unk>"] /\
  lookup_words ex_vocab [1; 3]%Z = Returned ["a"; "<unk>"].
Proof.
  assert (Hwords : Forall2 (fun w word => ex_vocab !! w = Some word)
                           [1; 3]%Z ["a"; "<unk>"])
    by (repeat constructor).
  split; [exact Hwords|].
  exact (proj2 (proj1 (lookup_words_spec ex_vocab [1; 3]%Z) ["a"; "<unk>"])
           Hwords).
Defined.

(** ** Methods the loop of main does not know, and variants it cannot build *)

Lemma next_method_unknown (interp_method : string) :
  interp_method <> "dknn" -> interp_method <> "softmax" ->
  interp_method <> "grad" ->
  next_method interp_method = interp_method /\
  is_leave_one_out interp_method = false /\
  (interp_method =? "grad")%string = false.
Proof.
  intros Hd Hs Hg. unfold next_method, is_leave_one_out.
  apply String.eqb_neq in Hd, Hs, Hg. by rewrite Hd, Hs, Hg.
Qed.

(** X7: started with a method that is none of dknn, softmax and grad, the
    run over a test set that is not empty ends at its first pass with
    SystemExit: no scorer is called, nothing is printed or written. *)
Theorem unknown_method_exits (dknn : DkNN) (model : Classifier)
  (test : list (ndarray * list Z)) (reverse_vocab : gmap Z string)
  (interp_method : string) :
  interp_method <> "dknn" -> interp_method <> "softmax" ->
  interp_method <> "grad" ->
  test <> [] ->
  main_loop dknn model test reverse_vocab interp_method
  = (Raised SystemExit, []).
Proof.
  intros Hd Hs Hg Htest.
  destruct (next_method_unknown _ Hd Hs Hg) as (Hnext & Hloo & Hgrad).
  unfold main_loop. destruct test as [|probe test]; [done|].
  cbn [length Nat.mul Nat.add seq iterations].
  unfold iteration. cbv zeta. unfold ranker.
  by rewrite Hnext, Hloo, Hgrad.
Qed.

Lemma unknown_method_exits_witness :
  main_loop ex_dknn ex_model ex_test ex_vocab "lime"
  = (Raised SystemExit, []).
Proof.
  apply unknown_method_exits; discriminate.
Defined.

(** X8: [leave_one_out] cannot be used with [snli] or [bigrams] set: the
    functions that would build those variants are commented out, so after
    the prediction on the probe the call raises NameError and no variant is
    scored. *)
Theorem leave_one_out_snli_bigrams_NameError (dknn : DkNN) (x : ndarray)
  (bigrams snli use_credibility : bool) (y : Z) (ys : list Z) (s0 : Q)
  (ss : list Q) :
  predict dknn [x] = (y :: ys, s0 :: ss) ->
  bigrams || snli = true ->
  leave_one_out dknn x bigrams snli use_credibility
  = (Raised NameError, [Call_predict [x]]).
Proof.
  intros Hp Hflag. unfold leave_one_out, call_predict.
  cbn. rewrite Hp. cbn.
  destruct snli; [done|]. destruct bigrams; [done|discriminate].
Qed.

Lemma leave_one_out_snli_bigrams_NameError_witness :
  leave_one_out ex_dknn (array1 [1; 2; 3]%Z) true false true
  = (Raised NameError, [Call_predict [array1 [1; 2; 3]%Z]]) /\
  leave_one_out ex_dknn (array1 [1; 2; 3]%Z) false true false
  = (Raised NameError, [Call_predict [array1 [1; 2; 3]%Z]]).
Proof.
  split.
  - by apply (leave_one_out_snli_bigrams_NameError ex_dknn _ true false true
                1%Z [] 1%Q []).
  - by apply (leave_one_out_snli_bigrams_NameError ex_dknn _ false true false
                1%Z [] 1%Q []).
Defined.

(** ** The method from one pass of the loop to the next *)

Lemma bind_Returned_inv {A B} (m : M A) (k : A -> M B) (b : B)
  (log : list event) :
  bind m k = (Returned b, log) ->
  exists a l1 l2, m = (Returned a, l1) /\ k a = (Returned b, l2) /\
                  log = l1 ++ l2.
Proof.
  destruct m as [[e|a] l1]; cbn; [discriminate|].
  destruct (k a) as [r l2] eqn:Hk. intros [= -> <-]. by exists a, l1, l2.
Qed.

Ltac bind_inv H :=
  let a := fresh "a" in
  let Hm := fresh "Hm" in
  apply bind_Returned_inv in H as (a & ? & ? & Hm & H & ?);
  cbn beta in H;
  repeat match type of H with
         | context [match ?p with pair _ _ => _ end] => destruct p
         end.

Lemma iteration_state (dknn : DkNN) (model : Classifier)
  (test : list (ndarray * list Z)) (reverse_vocab : gmap Z string)
  (interp_method m' : string) (j : nat) (log : list event) :
  iteration dknn model test reverse_vocab interp_method j
  = (Returned m', log) ->
  m' = next_method interp_method.
Proof.
  unfold iteration. cbv zeta. intros H.
  do 11 bind_inv H. by injection H as <-.
Qed.

Lemma iterations_state (dknn : DkNN) (model : Classifier)
  (test : list (ndarray * list Z)) (reverse_vocab : gmap Z string)
  (js : list nat) (interp_method m' : string) (log : list event) :
  iterations dknn model test reverse_vocab js interp_method
  = (Returned m', log) ->
  m' = Nat.iter (length js) next_method interp_method.
Proof.
  revert interp_method log.
  induction js as [|j js IH]; intros m log H; cbn [iterations] in H.
  - by injection H as <-.
  - bind_inv H. apply iteration_state in Hm as ->.
    apply IH in H as ->. cbn [length]. by rewrite Nat.iter_succ_r.
Qed.

Lemma next_method_cycle (n : nat) (interp_method : string) :
  known_method interp_method ->
  Nat.iter n next_method interp_method
  = Nat.iter (n mod 3) next_method interp_method.
Proof.
  intros Hm.
  assert (H3 : forall q, Nat.iter (3 * q) next_method interp_method
                         = interp_method).
  { induction q as [|q IH]; [done|].
    replace (3 * S q)%nat with (3 + 3 * q)%nat by lia.
    rewrite Nat.iter_add, IH.
    by destruct Hm as [-> | [-> | ->]]. }
  transitivity (Nat.iter (n mod 3 + 3 * (n / 3)) next_method interp_method).
  - f_equal. pose proof (Nat.div_mod_eq n 3). lia.
  - by rewrite Nat.iter_add, H3.
Qed.

(** X9: the method moves on at every pass: after the passes [js] have gone
    through, the method is the initial one advanced [length js] times, which
    for a known method only depends on [length js mod 3]; the three passes
    of one probe use three different methods, and a run of main that goes
    through ends with the method it started with. *)
Theorem methods_rotate (dknn : DkNN) (model : Classifier)
  (test : list (ndarray * list Z)) (reverse_vocab : gmap Z string)
  (interp_method : string) :
  known_method interp_method ->
  (forall js m' log,
     iterations dknn model test reverse_vocab js interp_method
     = (Returned m', log) ->
     m' = Nat.iter (length js mod 3) next_method interp_method) /\
  NoDup [next_method interp_method;
         next_method (next_method interp_method);
         next_method (next_method (next_method interp_method))] /\
  (forall m' log,
     main_loop dknn model test reverse_vocab interp_method
     = (Returned m', log) ->
     m' = interp_method).
Proof.
  intros Hm. split; [|split].
  - intros js m' log H. apply iterations_state in H as ->.
    by apply next_method_cycle.
  - destruct Hm as [-> | [-> | ->]]; by apply (bool_decide_unpack _).
  - intros m' log H. unfold main_loop in H.
    apply iterations_state in H as ->.
    rewrite next_method_cycle by done.
    rewrite length_seq, Nat.Div0.mod_mul. reflexivity.
Qed.

Lemma methods_rotate_witness :
  known_method "dknn" /\
  exists m' log,
    iterations ex_dknn ex_model ex_test ex_vocab [0; 1]%nat "dknn"
    = (Returned m', log) /\
    m' = "grad".
Proof.
  split; [by left|]. eexists _, _. split; [vm_compute; reflexivity|].
  eapply (proj1 (methods_rotate ex_dknn ex_model ex_test ex_vocab "dknn"
                   (or_introl eq_refl)) [0; 1]%nat).
  vm_compute. reflexivity.
Defined.

(** ** The prediction of vanilla_grad *)

Lemma argmax_from_maximum (rest pre : list Q) (best : Q) (best_i : nat) :
  pre !! best_i = Some best ->
  Forall (fun q => (q <= best)%Q) pre ->
  (forall k q, (k < best_i)%nat -> pre !! k = Some q -> (q < best)%Q) ->
  let k := argmax_from best best_i (length pre) rest in
  let m := fold_left (fun m b => if Qltb m b then b else m) rest best in
  (pre ++ rest) !! k = Some m /\
  Forall (fun q => (q <= m)%Q) (pre ++ rest) /\
  forall k' q, (k' < k)%nat -> (pre ++ rest) !! k' = Some q -> (q < m)%Q.
Proof.
  revert pre best best_i.
  induction rest as [|a rest IH]; intros pre best best_i Hbest Hle Hlt.
  - cbn. rewrite app_nil_r. auto.
  - cbn [argmax_from fold_left].
    replace (pre ++ a :: rest) with ((pre ++ [a]) ++ rest)
      by (by rewrite <- app_assoc).
    replace (S (length pre)) with (length (pre ++ [a]))
      by (rewrite length_app; cbn; lia).
    destruct (Qltb best a) eqn:E.
    + apply Qltb_lt in E. apply IH.
      * by rewrite lookup_app_r, Nat.sub_diag.
      * apply Forall_app. split.
        -- eapply Forall_impl; [exact Hle|]. intros q Hq. cbn in Hq. lra.
        -- constructor; [lra|constructor].
      * intros k q Hk Hq. rewrite lookup_app_l in Hq by done.
        rewrite Forall_lookup in Hle. specialize (Hle k q Hq).
        cbn in Hle. lra.
    + apply Qltb_ge in E. apply IH.
      * rewrite lookup_app_l; [done|]. by eapply lookup_lt_Some.
      * apply Forall_app. split; [done|]. by constructor.
      * intros k q Hk Hq. apply lookup_lt_Some in Hbest.
        rewrite lookup_app_l in Hq by lia. by eapply Hlt.
Qed.

(** X10: when [vanilla_grad] returns, the predicted label is the position of
    the first greatest class probability and the baseline score is that
    probability; the scores are the gradients of the unmodified probe, and
    the only calls are one prediction and one gradient on it: no variant is
    built, so the length of the probe does not matter. *)
Theorem vanilla_grad_prediction_is_maximum (model : Classifier) (x : ndarray)
  (bigrams snli use_credibility : bool) (y : Z) (s0 : Q) (scores : list Q)
  (log : list event) :
  vanilla_grad model x bigrams snli use_credibility
  = (Returned (y, s0, scores), log) ->
  let probs := concat (predict_softmax model [x]) in
  (0 <= y)%Z /\
  probs !! Z.to_nat y = Some s0 /\
  Forall (fun q => (q <= s0)%Q) probs /\
  (forall k q, (k < Z.to_nat y)%nat -> probs !! k = Some q -> (q < s0)%Q) /\
  get_onehot_grad model [x] !! 0%nat = Some scores /\
  log = [Call_model_predict [x]; Call_get_onehot_grad [x]].
Proof.
  intros H probs.
  apply vanilla_grad_returned in H as (Hy & Hs & Hg & Hl).
  fold probs in Hy, Hs. destruct probs as [|a rest]; [discriminate|].
  cbn in Hy, Hs. injection Hy as <-. injection Hs as <-.
  destruct (argmax_from_maximum rest [a] a 0) as (Hk & Hall & Hfirst).
  - reflexivity.
  - constructor; [lra|constructor].
  - intros k q Hk. lia.
  - cbn [length app] in Hk, Hall, Hfirst.
    rewrite Nat2Z.id. repeat split; try done. lia.
Qed.

Lemma vanilla_grad_prediction_is_maximum_witness :
  exists y s0 scores log,
    vanilla_grad ex_model (array1 [7%Z]) false false false
    = (Returned (y, s0, scores), log) /\
    y = 1%Z /\
    concat (predict_softmax ex_model [array1 [7%Z]]) !! Z.to_nat y
    = Some s0 /\
    flatten (array1 [7%Z]) = Raised AssertionError.
Proof.
  eexists _, _, _, _. split; [vm_compute; reflexivity|].
  split; [reflexivity|]. split; [|reflexivity].
  eapply (vanilla_grad_prediction_is_maximum ex_model (array1 [7%Z])
            false false false).
  vm_compute. reflexivity.
Defined.

Lemma iteration_returned_witness :
  exists log visual,
    rank ex_dknn ex_model "softmax" (array1 [1; 2; 3]%Z)
    = (Returned (1%Z, 1%Q, [(2 # 10); (1 # 10); (1 # 10)]%Q), log) /\
    heatmap ex_vocab "softmax" 1 1 [(2 # 10); (1 # 10); (1 # 10)]%Q
            [1; 2; 3]%Z
    = Returned visual /\
    exists printed,
      Forall2 (fun it ev =>
                 exists word,
                   word_at ex_vocab [1; 2; 3]%Z (fst it) = Some word /\
                   ev = Print_score (snd it) word)
              (ranking [(2 # 10); (1 # 10); (1 # 10)]%Q) printed /\
      iteration ex_dknn ex_model ex_test ex_vocab "dknn" 0
      = (Returned "softmax",
         log ++ [Print_text ["a"; "b"; "<unk>"]; Print_label 1;
                 Print_prediction 1 1]
             ++ printed
             ++ [Write_visual visual; Print_empty_line; Print_empty_line]).
Proof.
  eexists _, _. split; [vm_compute; reflexivity|].
  split; [vm_compute; reflexivity|].
  apply (iteration_returned ex_dknn ex_model ex_test ex_vocab "dknn" 0
           (array1 [1; 2; 3]%Z) [1%Z] 1 1
           [(2 # 10); (1 # 10); (1 # 10)]%Q _ ["a"; "b"; "<unk>"] 1%Z _).
  - reflexivity.
  - vm_compute. reflexivity.
  - reflexivity.
  - reflexivity.
  - vm_compute. reflexivity.
Defined.

(** ** The reversed vocabulary *)

(** X12: the reversed vocabulary maps a token to a word only if the
    vocabulary maps that word to the token, and every token of the
    vocabulary gets a word: the last word listed for it. For a vocabulary
    that gives every word its own token, looking up the token of a word
    gives the word back. *)
Theorem make_reverse_vocab_spec (vocab_items : list (string * Z)) :
  (forall (v : Z) (k : string),
     make_reverse_vocab vocab_items !! v = Some k ->
     (k, v) ∈ vocab_items) /\
  (forall l1 l2 (k : string) (v : Z),
     vocab_items = l1 ++ (k, v) :: l2 -> v ∉ map snd l2 ->
     make_reverse_vocab vocab_items !! v = Some k) /\
  (NoDup (map snd vocab_items) ->
   forall (k : string) (v : Z), (k, v) ∈ vocab_items ->
               make_reverse_vocab vocab_items !! v = Some k).
Proof.
  unfold make_reverse_vocab.
  assert (Hin : forall (items : list (string * Z)) (d : gmap Z string)
                       (v : Z) (k : string),
            fold_left (fun d '(k, v) => <[v := k]> d) items d !! v = Some k ->
            (k, v) ∈ items \/ d !! v = Some k).
  { induction items as [|[k' v'] items IH]; intros d v k H; cbn in H.
    - by right.
    - destruct (IH _ _ _ H) as [H' | H']; [left; by right|].
      destruct (decide (v' = v)) as [-> | Hne].
      + rewrite lookup_insert_eq in H'. injection H' as ->. left. by left.
      + rewrite lookup_insert_ne in H' by done. by right. }
  assert (Hkeep : forall (items : list (string * Z)) (d : gmap Z string)
                         (v : Z) (k : string),
            v ∉ map snd items -> d !! v = Some k ->
            fold_left (fun d '(k, v) => <[v := k]> d) items d !! v = Some k).
  { induction items as [|[k' v'] items IH]; intros d v k Hnot Hd; cbn.
    - done.
    - cbn in Hnot. apply not_elem_of_cons in Hnot as [Hne Hnot].
      apply IH; [done|]. by rewrite lookup_insert_ne. }
  assert (Hlast : forall (l1 l2 : list (string * Z)) (k : string) (v : Z),
            v ∉ map snd l2 ->
            fold_left (fun d '(k, v) => <[v := k]> d)
                      (l1 ++ (k, v) :: l2) (∅ : gmap Z string) !! v
            = Some k).
  { intros l1 l2 k v Hnot. rewrite fold_left_app. cbn [fold_left].
    apply Hkeep; [done|]. apply lookup_insert_eq. }
  split; [|split].
  - intros v k H. destruct (Hin _ _ _ _ H) as [H' | H']; [done|].
    by rewrite lookup_empty in H'.
  - intros l1 l2 k v -> Hnot. by apply Hlast.
  - intros Hnodup k v Hkv.
    apply list_elem_of_split in Hkv as (l1 & l2 & ->).
    apply Hlast. rewrite map_app in Hnodup. cbn in Hnodup.
    apply NoDup_app in Hnodup as (_ & _ & Hnodup).
    by apply NoDup_cons in Hnodup as [Hnot _].
Qed.

Lemma make_reverse_vocab_spec_witness :
  make_reverse_vocab [("a", 1%Z); ("b", 2%Z); ("c", 1%Z)] !! 2%Z = Some "b" /\
  make_reverse_vocab [("a", 1%Z); ("b", 2%Z); ("c", 1%Z)] !! 1%Z = Some "c".
Proof.
  split.
  - apply (proj1 (proj2 (make_reverse_vocab_spec
                           [("a", 1%Z); ("b", 2%Z); ("c", 1%Z)]))
             [("a", 1%Z)] [("c", 1%Z)]); [reflexivity|].
    cbn. intros H. by apply list_elem_of_singleton in H.
  - apply (proj1 (proj2 (make_reverse_vocab_spec
                           [("a", 1%Z); ("b", 2%Z); ("c", 1%Z)]))
             [("a", 1%Z); ("b", 2%Z)] []); [reflexivity|].
    cbn. intros H. inversion H.
Defined.

(** ** The vote of the neighbours and the accuracy *)

Lemma counted_cons (p : Z * nat) (c : list (Z * nat)) (z : Z) :
  counted (p :: c) z
  = ((if decide (fst p = z) then snd p else 0) + counted c z)%nat.
Proof.
  unfold counted. rewrite filter_cons. by case_decide.
Qed.

Lemma counted_counter_add (c : list (Z * nat)) (y z : Z) :
  counted (counter_add c y) z
  = (counted c z + (if decide (y = z) then 1 else 0))%nat.
Proof.
  induction c as [|[k n] c IH]; cbn [counter_add].
  - rewrite counted_cons. cbn. unfold counted. cbn. lia.
  - destruct (Z.eqb_spec k y) as [-> | Hne].
    + rewrite !counted_cons. cbn [fst snd]. case_decide; lia.
    + rewrite !counted_cons, IH. cbn [fst snd].
      repeat case_decide; lia.
Qed.

Lemma counter_add_keys (c : list (Z * nat)) (y : Z) :
  map fst (counter_add c y)
  = if decide (y ∈ map fst c) then map fst c else map fst c ++ [y].
Proof.
  induction c as [|[k n] c IH]; cbn [counter_add map fst].
  - rewrite decide_False; [done|]. intros H. inversion H.
  - destruct (Z.eqb_spec k y) as [-> | Hne]; cbn [map fst].
    + rewrite decide_True; [done|]. by left.
    + rewrite IH. destruct (decide (y ∈ map fst c)) as [Hin | Hnot].
      * rewrite decide_True; [done|]. by right.
      * rewrite decide_False; [done|].
        intros H. apply elem_of_cons in H as [-> | H]; done.
Qed.

Lemma Counter_spec (pred_labels : list Z) :
  NoDup (map fst (Counter pred_labels)) /\
  forall z, counted (Counter pred_labels) z = votes_for z pred_labels.
Proof.
  unfold Counter.
  assert (H : forall l c,
            NoDup (map fst c) ->
            NoDup (map fst (fold_left counter_add l c)) /\
            forall z, counted (fold_left counter_add l c) z
                      = (counted c z + votes_for z l)%nat).
  { induction l as [|y l IH]; intros c Hc; cbn [fold_left].
    - split; [done|]. intros z. unfold votes_for. cbn. lia.
    - destruct (IH (counter_add c y)) as [Hnd Hcount].
      + rewrite counter_add_keys. case_decide; [done|].
        apply NoDup_app. split; [done|]. split.
        * intros x Hx Hy. apply list_elem_of_singleton in Hy as ->. done.
        * apply NoDup_singleton.
      + split; [done|]. intros z. rewrite Hcount, counted_counter_add.
        unfold votes_for. rewrite filter_cons. case_decide; cbn; lia. }
  destruct (H pred_labels []) as [Hnd Hcount]; [constructor|].
  split; [done|]. intros z. by rewrite Hcount.
Qed.

Lemma counted_entry (c : list (Z * nat)) (k : Z) (n : nat) :
  NoDup (map fst c) -> (k, n) ∈ c -> counted c k = n.
Proof.
  induction c as [|[k' n'] c IH]; intros Hnd Hin; [inversion Hin|].
  cbn in Hnd. apply NoDup_cons in Hnd as [Hnot Hnd].
  rewrite counted_cons. cbn [fst snd].
  apply elem_of_cons in Hin as [[= -> ->] | Hin].
  - rewrite decide_True by done.
    assert (H : counted c k' = 0%nat); [|lia].
    unfold counted. clear IH Hnd. induction c as [|[k2 n2] c IH]; [done|].
    cbn in Hnot. apply not_elem_of_cons in Hnot as [Hne Hnot].
    rewrite filter_cons. cbn [fst]. rewrite decide_False by done.
    by apply IH.
  - rewrite decide_False.
    + cbn. by apply IH.
    + intros ->. apply Hnot.
      apply list_elem_of_fmap. by exists (k, n).
Qed.

Lemma counted_positive (c : list (Z * nat)) (z : Z) :
  (0 < counted c z)%nat -> exists n, (z, n) ∈ c.
Proof.
  induction c as [|[k n] c IH]; intros H.
  - unfold counted in H. cbn in H. lia.
  - rewrite counted_cons in H. cbn [fst snd] in H.
    destruct (decide (k = z)) as [-> | Hne].
    + exists n. by left.
    + destruct IH as [n' Hn']; [lia|]. exists n'. by right.
Qed.

Lemma most_common_fold (c : list (Z * nat)) (p : Z * nat) :
  let best := fold_left (fun best q =>
                           if (snd best <? snd q)%nat then q else best) c p in
  best ∈ p :: c /\ forall q, q ∈ p :: c -> (snd q <= snd best)%nat.
Proof.
  revert p. induction c as [|q c IH]; intros p; cbn [fold_left].
  - split; [by left|]. intros q Hq.
    by apply list_elem_of_singleton in Hq as ->.
  - destruct (Nat.ltb_spec (snd p) (snd q)) as [Hlt | Hge].
    + destruct (IH q) as [Hin Hmax]. split.
      * by right.
      * intros r Hr. apply elem_of_cons in Hr as [-> | Hr].
        -- pose proof (Hmax q ltac:(by left)). lia.
        -- by apply Hmax.
    + destruct (IH p) as [Hin Hmax]. split.
      * apply elem_of_cons in Hin as [-> | Hin]; [by left|].
        right. by right.
      * intros r Hr. apply elem_of_cons in Hr as [-> | Hr].
        -- apply Hmax. by left.
        -- apply elem_of_cons in Hr as [-> | Hr].
           ++ pose proof (Hmax p ltac:(by left)). lia.
           ++ apply Hmax. by right.
Qed.

Lemma votes_for_positive (y : Z) (pred_labels : list Z) :
  (0 < votes_for y pred_labels)%nat <-> y ∈ pred_labels.
Proof.
  unfold votes_for. induction pred_labels as [|z l IH].
  - cbn. split; [lia|]. intros H. inversion H.
  - rewrite filter_cons. case_decide as Hz.
    + subst. cbn. split; [by left|lia].
    + rewrite IH. split; [by right|].
      intros H. apply elem_of_cons in H as [-> | H]; done.
Qed.

Lemma pred_labels_spec (label_list : list Z) (indices : list nat) :
  (forall labels,
     pred_labels label_list indices = Returned labels
     <-> Forall2 (fun id y => label_list !! id = Some y) indices labels) /\
  (forall e,
     pred_labels label_list indices = Raised e
     <-> e = IndexError /\
         exists id, id ∈ indices /\ (length label_list <= id)%nat).
Proof.
  induction indices as [|id indices [IHr IHe]]; cbn [pred_labels].
  - split.
    + intros labels. split.
      * intros [= <-]. constructor.
      * intros H. by inversion H.
    + intros e. split; [done|].
      intros (_ & id & Hid & _). inversion Hid.
  - unfold index. destruct (label_list !! id) as [y|] eqn:Hy; cbn [obind].
    + destruct (pred_labels label_list indices) as [e'|ys] eqn:Hrest;
        cbn [obind].
      * split.
        -- intros labels. split; [done|]. intros H.
           inversion H as [|? ? ? ? _ Htl]; subst.
           by apply IHr in Htl.
        -- intros e. split.
           ++ intros [= <-].
              destruct (proj1 (IHe e') eq_refl) as (-> & id' & Hin & Hge).
              split; [done|]. exists id'. split; [by right|done].
           ++ intros (-> & _).
              destruct (proj1 (IHe e') eq_refl) as (-> & _). done.
      * split.
        -- intros labels. split.
           ++ intros [= <-]. constructor; [done|]. by apply IHr.
           ++ intros H. inversion H as [|? y' ? ys' Hhd Htl]; subst.
              apply IHr in Htl. injection Htl as <-.
              rewrite Hy in Hhd. by injection Hhd as <-.
        -- intros e. split; [done|].
           intros (_ & id' & Hin & Hge).
           apply elem_of_cons in Hin as [-> | Hin].
           ++ apply lookup_lt_Some in Hy. lia.
           ++ pose proof (proj2 (IHe IndexError)
                            (conj eq_refl
                               (ex_intro _ id' (conj Hin Hge)))) as H.
              discriminate.
    + split.
      * intros labels. split; [done|]. intros H.
        inversion H as [|? ? ? ? Hhd _]; subst. rewrite Hy in Hhd. done.
      * intros e. split.
        -- intros [= <-]. split; [done|]. exists id. split; [by left|].
           by apply lookup_ge_None.
        -- by intros (-> & _).
Qed.

Lemma most_common_1_spec (neighbour_labels : list Z) :
  neighbour_labels <> [] ->
  exists most_common num_most_common,
    index (most_common_1 (Counter neighbour_labels)) 0
    = Returned (most_common, num_most_common) /\
    most_common ∈ neighbour_labels /\
    num_most_common = votes_for most_common neighbour_labels /\
    forall y, (votes_for y neighbour_labels <= num_most_common)%nat.
Proof.
  intros Hne. set (pl := neighbour_labels) in *.
  destruct (Counter_spec pl) as [Hnd Hcount].
  unfold most_common_1.
  destruct (Counter pl) as [|p c] eqn:Hc.
  - destruct pl as [|y pl]; [done|].
    specialize (Hcount y). change (counted [] y) with 0%nat in Hcount.
    assert (H : (0 < votes_for y (y :: pl))%nat)
      by (apply votes_for_positive; by left).
    lia.
  - destruct (most_common_fold c p) as [Hin Hmax].
    set (best := fold_left _ c p) in *.
    destruct best as [most_common num] eqn:Hbest.
    exists most_common, num. split; [reflexivity|].
    pose proof (counted_entry _ _ _ Hnd Hin) as Hnum.
    rewrite Hcount in Hnum.
    assert (Hpos : (0 < num)%nat).
    { destruct pl as [|y pl]; [done|].
      assert (H : (0 < votes_for y (y :: pl))%nat)
        by (apply votes_for_positive; by left).
      rewrite <- Hcount in H. apply counted_positive in H as [n Hn].
      pose proof (counted_entry _ _ _ Hnd Hn) as Hyn.
      rewrite Hcount in Hyn. specialize (Hmax _ Hn). cbn in Hmax.
      assert (0 < n)%nat; [|lia].
      rewrite <- Hyn. apply votes_for_positive. by left. }
    split; [apply votes_for_positive; lia|]. split; [done|].
    intros y.
    destruct (Nat.eq_dec (votes_for y pl) 0%nat) as [-> | Hy]; [lia|].
    assert (H : (0 < counted (p :: c) y)%nat) by (rewrite Hcount; lia).
    apply counted_positive in H as [n Hn].
    pose proof (counted_entry _ _ _ Hnd Hn) as Hyn.
    rewrite Hcount in Hyn. specialize (Hmax _ Hn). cbn in Hmax. lia.
Qed.

(** X13: the vote over the neighbours a query has returned, lines 212-217,
    whatever these neighbours are. It raises IndexError when the identifier
    of some neighbour is not a position of the label list, and also when
    there is no neighbour at all, since [most_common(1)] is then empty.
    Otherwise it returns a label that some neighbour has, with the number of
    neighbours that have it, and no label has more. *)
Theorem most_common_label_spec (label_list : list Z)
  (training_indices : list nat) :
  ((exists id, id ∈ training_indices /\ (length label_list <= id)%nat) ->
   most_common_label label_list training_indices = Raised IndexError) /\
  (training_indices = [] ->
   most_common_label label_list training_indices = Raised IndexError) /\
  (training_indices <> [] ->
   (forall id, id ∈ training_indices -> (id < length label_list)%nat) ->
   exists neighbour_labels most_common num_most_common,
     Forall2 (fun id y => label_list !! id = Some y)
             training_indices neighbour_labels /\
     most_common_label label_list training_indices
     = Returned (most_common, num_most_common) /\
     most_common ∈ neighbour_labels /\
     num_most_common = votes_for most_common neighbour_labels /\
     forall y, (votes_for y neighbour_labels <= num_most_common)%nat).
Proof.
  destruct (pred_labels_spec label_list training_indices) as [Hr He].
  unfold most_common_label. split; [|split].
  - intros Hout.
    by rewrite (proj2 (He IndexError) (conj eq_refl Hout)).
  - intros ->. reflexivity.
  - intros Hne Hin.
    destruct (pred_labels label_list training_indices) as [e|pl] eqn:Hpl.
    + destruct (proj1 (He e) eq_refl) as (_ & id & Hid & Hge).
      specialize (Hin id Hid). lia.
    + pose proof (proj1 (Hr pl) eq_refl) as Hall. cbn [obind].
      destruct (most_common_1_spec pl) as (mc & num & Hvote & Hmc).
      { intros ->. apply Forall2_length in Hall.
        destruct training_indices; [done|discriminate]. }
      by exists pl, mc, num.
Qed.

Lemma most_common_label_spec_witness :
  [2; 0; 1]%nat <> [] /\
  (forall id, id ∈ [2; 0; 1]%nat -> (id < length [7; 5; 7]%Z)%nat) /\
  most_common_label [7; 5; 7]%Z [2; 0; 1]%nat = Returned (7%Z, 2%nat) /\
  most_common_label [7; 5; 7]%Z [2; 3]%nat = Raised IndexError /\
  most_common_label [7; 5; 7]%Z [] = Raised IndexError.
Proof.
  assert (Hin : forall id, id ∈ [2; 0; 1]%nat -> (id < length [7; 5; 7]%Z)%nat).
  { intros id Hid. cbn.
    repeat (apply elem_of_cons in Hid as [-> | Hid]; [lia|]).
    inversion Hid. }
  split; [done|]. split; [exact Hin|].
  destruct (most_common_label_spec [7; 5; 7]%Z [2; 0; 1]%nat)
    as (_ & _ & Hvote).
  destruct (Hvote ltac:(done) Hin) as (pl & mc & num & _ & Hrun & _).
  split; [|split].
  - rewrite Hrun. vm_compute in Hrun. by injection Hrun as <- <-.
  - apply (proj1 (most_common_label_spec [7; 5; 7]%Z [2; 3]%nat)).
    exists 3%nat. split; [by right; left|cbn; lia].
  - exact (proj1 (proj2 (most_common_label_spec [7; 5; 7]%Z [])) eq_refl).
Defined.

Section AccuracyFacts.

Variable deep_knn_predict : list ndarray -> list vector * list vector.
Variable query_keys : vector -> list string.
Variable distance : vector -> vector -> Q.





End AccuracyFacts.


(** ** What the build phase stores *)

Lemma predicted_labels_app (a b : list vector) :
  predicted_labels (a ++ b)
  = obind (predicted_labels a) (fun ya =>
    obind (predicted_labels b) (fun yb => Returned (ya ++ yb))).
Proof.
  induction a as [|p a IH]; cbn [app predicted_labels obind].
  - by destruct (predicted_labels b).
  - destruct (argmax p) as [e|y]; cbn [obind]; [done|]. rewrite IH.
    destruct (predicted_labels a) as [e|ya]; cbn [obind]; [done|].
    by destruct (predicted_labels b).
Qed.

Lemma collect_returned
  (deep_knn_predict : list ndarray -> list vector * list vector)
  (train_iter : list (list (ndarray * list Z)))
  (acts acts' : list vector) (labels labels' : list Z) :
  collect deep_knn_predict train_iter acts labels = Returned (acts', labels')
  ->
  acts' = acts ++ flat_map (fun train_batch =>
                              snd (deep_knn_predict (map fst train_batch)))
                           train_iter /\
  exists ys,
    predicted_labels
      (flat_map (fun train_batch =>
                   fst (deep_knn_predict (map fst train_batch))) train_iter)
    = Returned ys /\
    labels' = labels ++ ys.
Proof.
  revert acts labels.
  induction train_iter as [|b train_iter IH]; intros acts labels H;
    cbn [collect flat_map] in *.
  - injection H as <- <-. rewrite !app_nil_r. split; [done|].
    exists []. by rewrite app_nil_r.
  - destruct (deep_knn_predict (map fst b)) as [output activations].
    cbn [fst snd].
    destruct (predicted_labels output) as [e|ys] eqn:Hys;
      cbn [obind] in H; [done|].
    apply IH in H as (-> & ys' & Hys' & ->).
    split; [by rewrite app_assoc|].
    exists (ys ++ ys'). rewrite predicted_labels_app, Hys, Hys'.
    split; [done|]. by rewrite app_assoc.
Qed.

(** X15: when the build phase returns, its one engine holds one entry per
    activation row of the training batches, in the order of the batches: the
    entry of row i holds the normalized row under the identifier i, in the
    bucket of the hash of the row as it was given; the dimension of the
    engine is the length of the first row; the label list holds, in the same
    order, the position of the greatest class score of every output row. *)
Theorem build_stores_rows_in_order
  (deep_knn_predict : list ndarray -> list vector * list vector)
  (hash_vector : vector -> string) (unitvec : vector -> vector)
  (train_iter : list (list (ndarray * list Z)))
  (activation_tree : Engine) (label_list : list Z) :
  build deep_knn_predict hash_vector unitvec train_iter
  = Returned (activation_tree, label_list) ->
  let rows := flat_map (fun train_batch =>
                          snd (deep_knn_predict (map fst train_batch)))
                       train_iter in
  storage activation_tree
  = map (fun it => (hash_vector (snd it), (unitvec (snd it), fst it)))
        (enumerate rows) /\
  (exists first, rows !! 0%nat = Some first /\
                 dim activation_tree = length first) /\
  predicted_labels
    (flat_map (fun train_batch =>
                 fst (deep_knn_predict (map fst train_batch))) train_iter)
  = Returned label_list.
Proof.
  intros H rows. unfold build in H.
  destruct (collect deep_knn_predict train_iter [] [])
    as [e|[acts labels]] eqn:Hc; cbn [obind] in H; [done|].
  apply collect_returned in Hc as (-> & ys & Hys & ->).
  cbn [app] in *. fold rows in H. unfold index in H.
  destruct (rows !! 0%nat) as [first|] eqn:Hfirst; cbn [obind] in H; [|done].
  injection H as <- <-.
  split; [|split].
  - by rewrite store_all_storage.
  - exists first. split; [done|]. by rewrite store_all_dim.
  - exact Hys.
Qed.

Lemma build_stores_rows_in_order_witness :
  exists activation_tree label_list,
    build ex_deep_knn_predict ex_hash_vector ex_unitvec ex_train_iter
    = Returned (activation_tree, label_list) /\
    map (fun entry => snd entry) (storage activation_tree)
    = [(ex_unitvec [6; 3]%Q, 0%nat); (ex_unitvec [9; 2]%Q, 1%nat)] /\
    dim activation_tree = 2%nat.
Proof.
  eexists _, _. split; [vm_compute; reflexivity|].
  edestruct (build_stores_rows_in_order ex_deep_knn_predict ex_hash_vector
               ex_unitvec ex_train_iter)
    as (Hstore & (first & Hfirst & Hdim) & _).
  { vm_compute. reflexivity. }
  split.
  - rewrite Hstore. reflexivity.
  - rewrite Hdim. vm_compute in Hfirst. by injection Hfirst as <-.
Defined.

(** ** nets.py: sequence_embed gives back one block per sequence *)

Lemma split_at_concat {A} (xs : list (list A)) (x_last pre : list A) :
  split_at (length pre) (cumsum_from (length pre) (map length xs))
           (pre ++ concat xs ++ x_last)
  = xs ++ [x_last].
Proof.
  revert pre. induction xs as [|x xs IH]; intros pre;
    cbn [map cumsum_from split_at concat app].
  - unfold slice. rewrite drop_app_length, length_app.
    replace (length pre + length x_last - length pre)%nat
      with (length x_last) by lia.
    by rewrite take_ge.
  - f_equal.
    + unfold slice. rewrite drop_app_length.
      replace (length pre + length x - length pre)%nat
        with (length x) by lia.
      by rewrite <- app_assoc, take_app_length.
    + specialize (IH (pre ++ x)). rewrite length_app in IH.
      rewrite <- IH. f_equal. by rewrite <- !app_assoc.
Qed.

Lemma split_at_sections {A B} (xs : list (list A)) (ys : list (list B)) :
  ys <> [] -> map length ys = map length xs ->
  split_at 0 (cumsum_from 0 (removelast (map length xs))) (concat ys) = ys.
Proof.
  intros Hne Hlen. rewrite <- Hlen.
  assert (exists front y_last, ys = front ++ [y_last])
    as (front & y_last & ->)
    by (eexists _, _; apply (app_removelast_last [] Hne)).
  rewrite map_app. cbn [map].
  rewrite removelast_last, concat_app. cbn [concat].
  rewrite app_nil_r.
  exact (split_at_concat front y_last []).
Qed.

Lemma pieces_of_sizes {A} (szs : list nat) (ary : list A) :
  list_sum szs = length ary ->
  exists ys, concat ys = ary /\ map length ys = szs.
Proof.
  revert ary. induction szs as [|sz szs IH]; intros ary H.
  - exists []. split; [|done]. symmetry. by apply nil_length_inv.
  - change (list_sum (sz :: szs)) with (sz + list_sum szs)%nat in H.
    destruct (IH (drop sz ary)) as (ys & Hys & Hlen).
    { rewrite length_drop. lia. }
    exists (take sz ary :: ys). cbn. split.
    + by rewrite Hys, take_drop.
    + rewrite Hlen, length_take. f_equal. lia.
Qed.

Lemma length_concat_sum {A} (xs : list (list A)) :
  length (concat xs) = list_sum (map length xs).
Proof.
  induction xs as [|x xs IH]; cbn; [done|].
  by rewrite length_app, IH.
Qed.

(** X16: [sequence_embed] gives one block of rows per input sequence, block
    i with as many rows as sequence i has tokens; outside train mode block i
    is the embedding of sequence i, as the docstring says. Given no sequence
    at all it fails in [F.concat]. *)
Theorem sequence_embed_blocks (rng : Type) (train : bool)
  (Dropout : Q -> list vector -> rng -> list vector * rng)
  (concat_error : exception) (embed : list Z -> list vector)
  (W : Z -> vector) (xs : list (list Z)) (dropout : Q) (g : rng) :
  (forall ids, embed ids = map W ids) ->
  (xs = [] ->
   sequence_embed rng train Dropout concat_error embed xs dropout g
   = (Raised concat_error, g)) /\
  (xs <> [] -> train = false ->
   sequence_embed rng train Dropout concat_error embed xs dropout g
   = (Returned (map (map W) xs), g)) /\
  (xs <> [] ->
   (forall ratio x g', length (fst (Dropout ratio x g')) = length x) ->
   exists exs g',
     sequence_embed rng train Dropout concat_error embed xs dropout g
     = (Returned exs, g') /\
     map length exs = map length xs).
Proof.
  intros Hembed. split; [|split].
  - intros ->. reflexivity.
  - intros Hne ->. unfold sequence_embed, F_dropout_rows.
    destruct xs as [|x xs]; [done|]. cbn [F_concat0].
    rewrite Hembed, concat_map. do 2 f_equal.
    apply (split_at_sections (x :: xs)).
    + done.
    + rewrite map_map. apply map_ext. intros l. apply length_map.
  - intros Hne Hdrop. unfold sequence_embed, F_dropout_rows.
    destruct xs as [|x xs]; [done|]. cbn [F_concat0].
    set (ex := embed (concat (x :: xs))).
    assert (Hex : length ex = list_sum (map length (x :: xs))).
    { unfold ex. by rewrite Hembed, length_map, length_concat_sum. }
    destruct train.
    + specialize (Hdrop dropout ex g).
      destruct (Dropout dropout ex g) as [ex' g']. cbn [fst] in Hdrop.
      destruct (pieces_of_sizes (map length (x :: xs)) ex')
        as (ys & <- & Hlen); [lia|].
      eexists _, _. split; [reflexivity|].
      rewrite (split_at_sections (x :: xs) ys); [done| |done].
      intros ->. discriminate.
    + destruct (pieces_of_sizes (map length (x :: xs)) ex)
        as (ys & Hys & Hlen); [lia|].
      eexists _, _. split; [reflexivity|].
      rewrite <- Hys.
      rewrite (split_at_sections (x :: xs) ys); [done| |done].
      intros ->. discriminate.
Qed.

Lemma sequence_embed_blocks_witness :
  sequence_embed nat false (fun _ x g => (x, S g)) ValueError
                 (map (fun w => [inject_Z w; 0%Q]))
                 [[1; 2]%Z; []; [3%Z]] (1 # 10) 0%nat
  = (Returned [[[1; 0]; [2; 0]]%Q; []; [[3; 0]%Q]], 0%nat).
Proof.
  apply (sequence_embed_blocks nat false (fun _ x g => (x, S g)) ValueError
           (map (fun w => [inject_Z w; 0%Q])) (fun w => [inject_Z w; 0%Q])
           [[1; 2]%Z; []; [3%Z]] (1 # 10) 0%nat);
    [reflexivity|discriminate|reflexivity].
Defined.

(** ** nets.py: the layers the encoders and the classifiers return *)

Section NetsFacts.

Context `{Chainer}.

Lemma last_cons {A} (a d : A) (l : list A) :
  List.last (a :: l) d = List.last l a.
Proof.
  revert a d. induction l as [|b l IH]; intros a d; [done|].
  change (List.last (a :: b :: l) d) with (List.last (b :: l) d).
  by rewrite (IH b d), (IH b a).
Qed.

Lemma add_links_length (n_layers n_units : nat) (g : generator) :
  length (fst (add_links n_layers n_units g)) = n_layers.
Proof.
  revert g. induction n_layers as [|n IH]; intros g; [done|].
  cbn [add_links]. unfold nbind at 1. cbn [fst snd].
  unfold nbind at 1. cbn [fst snd nret length]. by rewrite IH.
Qed.

Lemma MLP_init_fields (n_layers n_units : nat) (dropout : Q)
  (g : generator) :
  let mlp := fst (MLP_init n_layers n_units dropout g) in
  length (MLP_children mlp) = n_layers /\
  MLP_n_dknn_layers mlp = n_layers /\
  MLP_out_units mlp = n_units.
Proof.
  unfold MLP_init, nbind, nret. cbn. by rewrite add_links_length.
Qed.

Lemma MLP_loop_layers (children : list (tensor -> tensor)) (dropout : Q)
  (x : tensor) (dknn_layers : list tensor) (g : generator) :
  exists new,
    MLP_loop children dropout x dknn_layers g
    = (List.last new x, dknn_layers ++ new,
       snd (MLP_loop children dropout x [] g)) /\
    length new = length children.
Proof.
  revert x dknn_layers g.
  induction children as [|link children IH]; intros x dknn_layers g.
  - exists []. cbn. by rewrite app_nil_r.
  - cbn [MLP_loop]. unfold nbind. cbn zeta.
    set (x' := F_relu (link (fst (F_dropout x dropout g)))).
    set (g' := snd (F_dropout x dropout g)).
    destruct (IH x' (dknn_layers ++ [x']) g') as (new & Hnew & Hlen).
    destruct (IH x' ([] ++ [x']) g') as (new0 & Hnew0 & _).
    exists (x' :: new). split; [|by cbn; rewrite Hlen].
    rewrite Hnew, Hnew0. cbn [snd]. rewrite last_cons.
    by rewrite <- app_assoc.
Qed.

Lemma MLP_call_layers (self : MLP) (x : tensor) (g : generator) :
  exists layers,
    MLP_call self x true g
    = (List.last layers x, layers, snd (MLP_call self x true g)) /\
    MLP_call self x false g
    = (List.last layers x, snd (MLP_call self x true g)) /\
    length layers = length (MLP_children self).
Proof.
  destruct (MLP_loop_layers (MLP_children self) (MLP_dropout self) x [] g)
    as (layers & Hloop & Hlen).
  exists layers. unfold MLP_call, nbind. cbn zeta.
  rewrite Hloop. cbn. done.
Qed.

(** X17: an MLP built with [n_layers] layers declares [n_layers] dknn
    layers and returns that many when called with [dknn]; its output is the
    last of them, or its input when there is none; without [dknn] it returns
    the same output and leaves the generator in the same state. *)
Theorem MLP_returns_declared_layers (n_layers n_units : nat) (dropout : Q)
  (g : generator) (x : tensor) (g' : generator) :
  let self := fst (MLP_init n_layers n_units dropout g) in
  let r := MLP_call self x true g' in
  MLP_n_dknn_layers self = n_layers /\
  length (snd (fst r)) = MLP_n_dknn_layers self /\
  fst (fst r) = List.last (snd (fst r)) x /\
  MLP_call self x false g' = (fst (fst r), snd r).
Proof.
  intros self r.
  destruct (MLP_init_fields n_layers n_units dropout g) as (Hlen & Hn & _).
  fold self in Hlen, Hn.
  destruct (MLP_call_layers self x g') as (layers & Htrue & Hfalse & Hl).
  subst r. rewrite Hfalse, Htrue. cbn [fst snd].
  repeat split; congruence.
Qed.

Lemma CNNEncoder_call_layers (self : CNNEncoder) (xs : list (list Z))
  (g : generator) :
  exists h layers,
    CNNEncoder_call self xs true g
    = (List.last layers h, F_squeeze h 2 :: layers,
       snd (CNNEncoder_call self xs true g)) /\
    CNNEncoder_call self xs false g
    = (List.last layers h, snd (CNNEncoder_call self xs true g)) /\
    length layers = length (MLP_children (CNN_mlp self)).
Proof.
  unfold CNNEncoder_call, nbind. cbn zeta.
  match goal with
  | |- context [MLP_call (CNN_mlp self) ?h true ?g1] =>
      destruct (MLP_call_layers (CNN_mlp self) h g1)
        as (layers & Htrue & Hfalse & Hlen);
      exists h, layers; rewrite Hfalse, Htrue
  end.
  cbn. done.
Qed.

Lemma CNNEncoder_init_fields (n_layers n_vocab n_units : nat) (dropout : Q)
  (g : generator) :
  let self := fst (CNNEncoder_init n_layers n_vocab n_units dropout g) in
  length (MLP_children (CNN_mlp self)) = n_layers /\
  CNN_n_dknn_layers self = (n_layers + 1)%nat /\
  CNN_out_units self = (n_units / 3 * 3)%nat /\
  MLP_out_units (CNN_mlp self) = CNN_out_units self.
Proof.
  unfold CNNEncoder_init, MLP_init, nbind, nret. cbn.
  by rewrite add_links_length.
Qed.

(** X18: a CNN encoder built with [n_layers] layers and at least three
    units declares [n_layers + 1] dknn layers and [3 * (n_units // 3)] output
    units, which is positive, at most [n_units] and the width of its MLP;
    called with [dknn] it returns as many layers as it declares, and the
    flag changes neither the output nor the state of the generator. *)
Theorem CNNEncoder_returns_declared_layers (n_layers n_vocab n_units : nat)
  (dropout : Q) (g : generator) :
  (3 <= n_units)%nat ->
  let self := fst (CNNEncoder_init n_layers n_vocab n_units dropout g) in
  let encoder := CNNEncoder_encoder self in
  Encoder_n_dknn_layers encoder = (n_layers + 1)%nat /\
  Encoder_out_units encoder = (3 * (n_units / 3))%nat /\
  (0 < Encoder_out_units encoder <= n_units)%nat /\
  MLP_out_units (CNN_mlp self) = Encoder_out_units encoder /\
  layers_as_declared encoder /\
  flag_selects encoder.
Proof.
  intros Hunits self encoder.
  destruct (CNNEncoder_init_fields n_layers n_vocab n_units dropout g)
    as (Hlen & Hn & Hu & Hmlp).
  fold self in Hlen, Hn, Hu, Hmlp.
  assert (Hdiv : (3 * (n_units / 3) <= n_units)%nat)
    by (apply Nat.Div0.mul_div_le).
  assert (Hpos : (1 <= n_units / 3)%nat)
    by (apply Nat.div_le_lower_bound; lia).
  refine (conj _ (conj _ (conj _ (conj _ (conj _ _))))).
  - exact Hn.
  - change (Encoder_out_units encoder) with (CNN_out_units self). lia.
  - change (Encoder_out_units encoder) with (CNN_out_units self). lia.
  - exact Hmlp.
  - intros xs g'. cbn [encoder CNNEncoder_encoder Encoder_call
                        Encoder_n_dknn_layers].
    destruct (CNNEncoder_call_layers self xs g')
      as (h & layers & Htrue & _ & Hl).
    rewrite Htrue. cbn. lia.
  - intros xs g'. cbn [encoder CNNEncoder_encoder Encoder_call].
    destruct (CNNEncoder_call_layers self xs g')
      as (h & layers & Htrue & Hfalse & _).
    rewrite Hfalse, Htrue. done.
Qed.

Lemma BOWEncoder_call_layers (self : BOWEncoder) (xs : list (list Z))
  (g : generator) :
  exists h,
    BOWEncoder_call self xs true g
    = (h, [F_squeeze h 2], snd (BOWEncoder_call self xs true g)) /\
    BOWEncoder_call self xs false g
    = (h, snd (BOWEncoder_call self xs true g)).
Proof.
  unfold BOWEncoder_call, nbind, nret. cbn zeta. cbn [fst snd].
  by eexists.
Qed.

(** X19: a BOW encoder declares one dknn layer and [n_units] output units;
    called with [dknn] it returns its output squeezed as the only layer; the
    flag changes neither the output nor the state of the generator; and the
    dropout ratio it was built with has no effect on what it returns. *)
Theorem BOWEncoder_returns_one_layer (n_vocab n_units : nat) (dropout : Q)
  (g : generator) :
  let encoder :=
    BOWEncoder_encoder (fst (BOWEncoder_init n_vocab n_units dropout g)) in
  Encoder_n_dknn_layers encoder = 1%nat /\
  Encoder_out_units encoder = n_units /\
  (forall xs g',
     snd (fst (Encoder_call encoder xs true g'))
     = [F_squeeze (fst (fst (Encoder_call encoder xs true g'))) 2]) /\
  flag_selects encoder /\
  (forall dropout' xs dknn g',
     Encoder_call
       (BOWEncoder_encoder (fst (BOWEncoder_init n_vocab n_units dropout' g)))
       xs dknn g'
     = Encoder_call encoder xs dknn g').
Proof.
  intros encoder.
  refine (conj eq_refl (conj eq_refl (conj _ (conj _ _)))).
  - intros xs g'. cbn [encoder BOWEncoder_encoder Encoder_call].
    destruct (BOWEncoder_call_layers
                (fst (BOWEncoder_init n_vocab n_units dropout g)) xs g')
      as (h & Htrue & _).
    by rewrite Htrue.
  - intros xs g'. cbn [encoder BOWEncoder_encoder Encoder_call].
    destruct (BOWEncoder_call_layers
                (fst (BOWEncoder_init n_vocab n_units dropout g)) xs g')
      as (h & Htrue & Hfalse).
    by rewrite Hfalse, Htrue.
  - intros dropout' xs dknn g'. reflexivity.
Qed.

Lemma BOWMLPEncoder_call_layers (self : BOWMLPEncoder) (xs : list (list Z))
  (g : generator) :
  exists h layers,
    BOWMLPEncoder_call self xs true g
    = (List.last layers h, F_squeeze h 2 :: layers,
       snd (BOWMLPEncoder_call self xs true g)) /\
    BOWMLPEncoder_call self xs false g
    = (List.last layers h, snd (BOWMLPEncoder_call self xs true g)) /\
    length layers = length (MLP_children (BOWMLP_mlp_encoder self)).
Proof.
  unfold BOWMLPEncoder_call, nbind. cbn zeta.
  destruct (BOWEncoder_call_layers (BOWMLP_bow_encoder self) xs g)
    as (h & Hbow & Hbow').
  rewrite Hbow', Hbow. cbn [fst snd].
  destruct (MLP_call_layers (BOWMLP_mlp_encoder self) h
              (snd (BOWEncoder_call (BOWMLP_bow_encoder self) xs true g)))
    as (layers & Htrue & Hfalse & Hlen).
  exists h, layers. rewrite Hfalse, Htrue. cbn. done.
Qed.

(** X20: a BOW-MLP encoder built with [n_layers] layers declares
    [n_layers + 1] dknn layers and [n_units] output units; called with
    [dknn] it returns as many layers as it declares, the layer of the BOW
    encoder first; the flag changes neither the output nor the state of the
    generator. *)
Theorem BOWMLPEncoder_returns_declared_layers
  (n_layers n_vocab n_units : nat) (dropout : Q) (g : generator) :
  let self := fst (BOWMLPEncoder_init n_layers n_vocab n_units dropout g) in
  let encoder := BOWMLPEncoder_encoder self in
  Encoder_n_dknn_layers encoder = (1 + n_layers)%nat /\
  Encoder_out_units encoder = n_units /\
  layers_as_declared encoder /\
  flag_selects encoder.
Proof.
  intros self encoder.
  assert (Hlen : length (MLP_children (BOWMLP_mlp_encoder self)) = n_layers).
  { unfold self, BOWMLPEncoder_init, MLP_init, nbind, nret. cbn.
    by rewrite add_links_length. }
  assert (Hn : Encoder_n_dknn_layers encoder = (1 + n_layers)%nat)
    by reflexivity.
  refine (conj Hn (conj _ (conj _ _))).
  - reflexivity.
  - intros xs g'. rewrite Hn.
    cbn [encoder BOWMLPEncoder_encoder Encoder_call].
    destruct (BOWMLPEncoder_call_layers self xs g')
      as (h & layers & Htrue & _ & Hl).
    rewrite Htrue. cbn. lia.
  - intros xs g'. cbn [encoder BOWMLPEncoder_encoder Encoder_call].
    destruct (BOWMLPEncoder_call_layers self xs g')
      as (h & layers & Htrue & Hfalse & _).
    by rewrite Hfalse, Htrue.
Qed.

Lemma TextClassifier_predict_layers (self : TextClassifier)
  (xs : list (list Z)) (softmax argmax : bool) (g : generator) :
  snd (fst (TextClassifier_predict self xs softmax argmax true g))
  = snd (fst (Encoder_call (TC_encoder self) xs true g)).
Proof.
  unfold TextClassifier_predict, nbind, nret. cbn zeta.
  by destruct (Encoder_call (TC_encoder self) xs true g) as [[e l] g1].
Qed.

(** X21: a classifier built on an encoder that returns the layers it
    declares, and whose flag only selects what is returned, declares the
    layers of the encoder and returns exactly the layers the encoder
    returns; it ignores [argmax] when [softmax] is set; and its own flag
    [dknn] changes neither its output nor the state of the generator. *)
Theorem TextClassifier_returns_encoder_layers (encoder : Encoder)
  (n_class : nat) (dropout : Q) (g : generator) :
  layers_as_declared encoder ->
  flag_selects encoder ->
  let self := fst (TextClassifier_init encoder n_class dropout g) in
  TC_n_dknn_layers self = Encoder_n_dknn_layers encoder /\
  (forall xs softmax argmax g',
     snd (fst (TextClassifier_predict self xs softmax argmax true g'))
     = snd (fst (Encoder_call encoder xs true g')) /\
     length (snd (fst (TextClassifier_predict self xs softmax argmax true g')))
     = TC_n_dknn_layers self /\
     TextClassifier_predict self xs softmax argmax false g'
     = (fst (fst (TextClassifier_predict self xs softmax argmax true g')),
        snd (TextClassifier_predict self xs softmax argmax true g'))) /\
  (forall xs argmax dknn g',
     TextClassifier_predict self xs true argmax dknn g'
     = TextClassifier_predict self xs true false dknn g').
Proof.
  intros Hdecl Hflag self.
  refine (conj eq_refl (conj _ _)).
  - intros xs softmax argmax g'.
    rewrite (TextClassifier_predict_layers self xs softmax argmax g').
    refine (conj eq_refl (conj (Hdecl xs g') _)).
    unfold TextClassifier_predict, nbind, nret. cbn zeta.
    change (TC_encoder self) with encoder.
    rewrite (Hflag xs g').
    by destruct (Encoder_call encoder xs true g') as [[e l] g1].
  - intros xs argmax dknn g'. by destruct dknn.
Qed.

Lemma SNLIClassifier_predict_layers (self : SNLIClassifier)
  (xs : SNLI_input (SNLI_combine self)) (softmax argmax : bool)
  (g : generator) :
  layers_as_declared (SNLI_encoder self) ->
  length (snd (fst (SNLIClassifier_predict self xs softmax argmax true g)))
  = (length (MLP_children (SNLI_mlp self))
     + (if SNLI_combine self
        then Encoder_n_dknn_layers (SNLI_encoder self) else 1))%nat.
Proof.
  destruct self as [encoder mlp output dropout n combine].
  cbn in xs |- *. intros Hdecl.
  unfold SNLIClassifier_predict, SNLI_encode, nbind, nret.
  cbn [SNLI_combine SNLI_encoder SNLI_mlp SNLI_dropout SNLI_output].
  cbn zeta.
  destruct combine; cbn in xs |- *.
  - specialize (Hdecl xs g).
    destruct (Encoder_call encoder xs true g) as [[e l] g1]. cbn [fst snd] in *.
    destruct (MLP_call_layers mlp (fst (F_dropout e dropout g1))
                (snd (F_dropout e dropout g1)))
      as (layers & Htrue & _ & Hlen).
    rewrite Htrue. cbn [fst snd]. rewrite length_app. lia.
  - match goal with
    | |- context [MLP_call mlp ?h true ?g1] =>
        destruct (MLP_call_layers mlp h g1) as (layers & Htrue & _ & Hlen)
    end.
    rewrite Htrue. cbn [fst snd]. cbn. lia.
Qed.

(** X22: an SNLI classifier built with [n_layers] layers on an encoder that
    returns the layers it declares; it declares [n_layers] layers more than
    the encoder when [combine] is set and [n_layers + 1] otherwise, and
    called with [dknn] it returns as many layers as it declares. *)
Theorem SNLIClassifier_returns_declared_layers (encoder : Encoder)
  (n_class n_layers : nat) (dropout : Q) (combine : bool) (g : generator) :
  layers_as_declared encoder ->
  let self :=
    fst (SNLIClassifier_init encoder n_class n_layers dropout combine g) in
  SNLI_n_dknn_layers self
  = (n_layers + (if combine then Encoder_n_dknn_layers encoder else 1))%nat /\
  forall (xs : SNLI_input (SNLI_combine self)) softmax argmax g',
    length (snd (fst (SNLIClassifier_predict self xs softmax argmax true g')))
    = SNLI_n_dknn_layers self.
Proof.
  intros Hdecl self.
  assert (Hlen : length (MLP_children (SNLI_mlp self)) = n_layers).
  { unfold self, SNLIClassifier_init, MLP_init, nbind, nret. cbn.
    by rewrite add_links_length. }
  assert (Hn : SNLI_n_dknn_layers self
               = (n_layers
                  + (if combine then Encoder_n_dknn_layers encoder else 1))%nat)
    by (by destruct combine).
  split; [exact Hn|].
  intros xs softmax argmax g'.
  rewrite (SNLIClassifier_predict_layers self xs softmax argmax g' Hdecl).
  by rewrite Hlen, Hn.
Qed.

End NetsFacts.

Lemma CNNEncoder_returns_declared_layers_witness :
  (3 <= 7)%nat /\
  @Encoder_n_dknn_layers ex_chainer
    (@CNNEncoder_encoder ex_chainer
       (fst (@CNNEncoder_init ex_chainer 2 5 7 (1 # 10) 0%nat)))
  = 3%nat /\
  @Encoder_out_units ex_chainer
    (@CNNEncoder_encoder ex_chainer
       (fst (@CNNEncoder_init ex_chainer 2 5 7 (1 # 10) 0%nat)))
  = 6%nat /\
  @layers_as_declared ex_chainer
    (@CNNEncoder_encoder ex_chainer
       (fst (@CNNEncoder_init ex_chainer 2 5 7 (1 # 10) 0%nat))).
Proof.
  assert (Hunits : (3 <= 7)%nat) by lia.
  destruct (@CNNEncoder_returns_declared_layers ex_chainer 2 5 7 (1 # 10)
              0%nat Hunits) as (Hn & Hu & _ & _ & Hdecl & _).
  exact (conj Hunits (conj Hn (conj Hu Hdecl))).
Defined.

Lemma ex_encoder_layers_as_declared :
  @layers_as_declared ex_chainer ex_encoder.
Proof. intros xs g. reflexivity. Qed.

Lemma ex_encoder_flag_selects : @flag_selects ex_chainer ex_encoder.
Proof. intros xs g. reflexivity. Qed.

Lemma TextClassifier_returns_encoder_layers_witness :
  @layers_as_declared ex_chainer ex_encoder /\
  @flag_selects ex_chainer ex_encoder /\
  forall xs softmax argmax g',
    length
      (snd (fst (@TextClassifier_predict ex_chainer
                   (fst (@TextClassifier_init ex_chainer ex_encoder 2
                           (1 # 10) 1%nat))
                   xs softmax argmax true g')))
    = 1%nat.
Proof.
  refine (conj ex_encoder_layers_as_declared
            (conj ex_encoder_flag_selects _)).
  intros xs softmax argmax g'.
  destruct (@TextClassifier_returns_encoder_layers ex_chainer ex_encoder 2
              (1 # 10) 1%nat ex_encoder_layers_as_declared
              ex_encoder_flag_selects) as (Hn & Hpredict & _).
  destruct (Hpredict xs softmax argmax g') as (_ & Hlen & _).
  rewrite Hlen. exact Hn.
Defined.

Lemma SNLIClassifier_returns_declared_layers_witness :
  @layers_as_declared ex_chainer ex_encoder /\
  forall (xs : list (list Z)) softmax argmax g',
    length
      (snd (fst (@SNLIClassifier_predict ex_chainer
                   (fst (@SNLIClassifier_init ex_chainer ex_encoder 3 2
                           (1 # 10) true 1%nat))
                   xs softmax argmax true g')))
    = 3%nat.
Proof.
  refine (conj ex_encoder_layers_as_declared _).
  intros xs softmax argmax g'.
  destruct (@SNLIClassifier_returns_declared_layers ex_chainer ex_encoder 3 2
              (1 # 10) true 1%nat ex_encoder_layers_as_declared)
    as (Hn & Hpredict).
  rewrite (Hpredict xs softmax argmax g'). exact Hn.
Defined.
